(** * Task Master: the task graph engine of [scripts/modules/task-manager.js]
      and the subtask ingestion of [ai-services.js]

    A shallow embedding of the status propagator ([setTaskStatus],
    [updateSingleTaskStatus]), the structural editor ([addTask],
    [addSubtask], [isTaskDependentOn], [removeSubtask]), the next-work
    selector ([findNextTask]) and the record validation of
    [parseSubtasksFromText], with the properties the specification states
    about them. *)

From Stdlib Require Import ZArith List String Ascii Bool Lia DecimalString.
From Stdlib Require Import Permutation Sorted.
Import ListNotations.
Set Warnings "-register-all".
Local Open Scope string_scope.
Local Open Scope list_scope.
Local Open Scope Z_scope.

(** ** The JavaScript primitives the code relies on *)

Module JS.

(** [x || d] on a value that is a string or [undefined]: [undefined] and
    the empty string are falsy. *)
Definition truthy_str (o : option string) : bool :=
  match o with
  | Some s => negb (String.eqb s "")
  | None => false
  end.

Definition or_str (o : option string) (d : string) : string :=
  match o with
  | Some s => if String.eqb s "" then d else s
  | None => d
  end.

(** Truthiness of a number or [undefined]: [0] is falsy. *)
Definition truthy_num (o : option Z) : bool :=
  match o with
  | Some z => negb (z =? 0)
  | None => false
  end.

(** [o === n] for [o] a number or [undefined] (or [NaN]) and [n] a
    number. *)
Definition strict_eq (o : option Z) (n : Z) : bool :=
  match o with
  | Some z => z =? n
  | None => false
  end.

(** [a.includes(n)]. *)
Definition includes (a : list Z) (n : Z) : bool :=
  existsb (fun x => x =? n) a.

(** [Math.max(...a)]; [None] stands for [-Infinity], the value on an
    empty array. *)
Definition Math_max (a : list Z) : option Z :=
  match a with
  | [] => None
  | x :: r => Some (fold_left Z.max r x)
  end.

(** Strings are sequences of code units below 256. *)

(** [s.includes(c)] for a one-character [c]. *)
Fixpoint includes_char (c : ascii) (s : string) : bool :=
  match s with
  | EmptyString => false
  | String x r => Ascii.eqb x c || includes_char c r
  end.

(** [s.split(c)] for a one-character separator; the empty string splits
    into one empty piece. *)
Fixpoint split (c : ascii) (s : string) : list string :=
  match s with
  | EmptyString => [EmptyString]
  | String x r =>
      if Ascii.eqb x c then EmptyString :: split c r
      else match split c r with
           | [] => [String x EmptyString]
           | h :: t => String x h :: t
           end
  end.

(** White space and line terminators: TAB, LF, VT, FF, CR, SP, NBSP. *)
Definition is_space (c : ascii) : bool :=
  let n := Z.of_N (N_of_ascii c) in
  ((9 <=? n) && (n <=? 13)) || (n =? 32) || (n =? 160).

Fixpoint trimStart (s : string) : string :=
  match s with
  | EmptyString => EmptyString
  | String x r => if is_space x then trimStart r else s
  end.

Fixpoint trimEnd (s : string) : string :=
  match s with
  | EmptyString => EmptyString
  | String x r =>
      match trimEnd r with
      | EmptyString => if is_space x then EmptyString
                       else String x EmptyString
      | r' => String x r'
      end
  end.

Definition trim (s : string) : string := trimEnd (trimStart s).

Definition lower_char (c : ascii) : ascii :=
  let n := Z.of_N (N_of_ascii c) in
  if ((65 <=? n) && (n <=? 90)) ||
     ((192 <=? n) && (n <=? 222) && negb (n =? 215))
  then ascii_of_N (Z.to_N (n + 32))
  else c.

Fixpoint toLowerCase (s : string) : string :=
  match s with
  | EmptyString => EmptyString
  | String x r => String (lower_char x) (toLowerCase r)
  end.

Definition digit (c : ascii) : option Z :=
  let n := Z.of_N (N_of_ascii c) in
  if (48 <=? n) && (n <=? 57) then Some (n - 48) else None.

(** The longest prefix of decimal digits, as a number; [acc] is [None]
    until a digit has been read. *)
Fixpoint digits (acc : option Z) (s : string) : option Z :=
  match s with
  | EmptyString => acc
  | String x r =>
      match digit x with
      | Some d =>
          digits (Some (10 * match acc with Some a => a | None => 0 end
                        + d)) r
      | None => acc
      end
  end.

(** [parseInt(s, 10)]; [None] is [NaN].  (Integers are exact: the loss
    of precision above 2^53 is not modelled.) *)
Definition parseInt (s : string) : option Z :=
  match trimStart s with
  | String "-" r => option_map Z.opp (digits None r)
  | String "+" r => digits None r
  | t => digits None t
  end.

(** [Array.prototype.sort(cmp)]: the sort is stable, and for a
    consistent comparator the result is ordered by it.  It is modelled by
    a stable insertion sort: an element stays in front of the later
    elements it compares [<= 0] with.  For a comparator that is not
    consistent the language leaves the order to the engine: every
    property below that depends on the order is stated for comparators
    that are consistent on the elements sorted. *)
Section Sort.
Context {A : Type} (cmp : A -> A -> Z).

Fixpoint insert (a : A) (l : list A) : list A :=
  match l with
  | [] => [a]
  | b :: r => if cmp a b <=? 0 then a :: b :: r else b :: insert a r
  end.

Fixpoint sort (l : list A) : list A :=
  match l with
  | [] => []
  | a :: r => insert a (sort r)
  end.
End Sort.

(** The comparator's answer as [sort] reads it: [NaN] ([None]) counts as
    [+0]. *)
Definition SortCompare (v : option Z) : Z :=
  match v with
  | Some n => n
  | None => 0
  end.

(** The names of the members an object literal inherits from
    [Object.prototype]. *)
Definition Object_prototype : list string :=
  ["constructor"; "__defineGetter__"; "__defineSetter__";
   "hasOwnProperty"; "__lookupGetter__"; "__lookupSetter__";
   "isPrototypeOf"; "propertyIsEnumerable"; "toString"; "valueOf";
   "__proto__"; "toLocaleString"].

End JS.

(** ** Data model

    A task and a subtask are JavaScript objects of the same shape: a
    subtask made from a task keeps every field of the task (its own
    [subtasks] included).  An absent field is [None]. *)

Inductive task : Type := mkTask {
  id : Z;
  title : option string;
  description : option string;
  details : option string;
  testStrategy : option string;
  status : option string;
  priority : option string;
  dependencies : option (list Z);
  subtasks : option (list task);
  parentTaskId : option Z
}.

Definition set_id (t : task) (n : Z) : task :=
  mkTask n (title t) (description t) (details t) (testStrategy t)
         (status t) (priority t) (dependencies t) (subtasks t)
         (parentTaskId t).

Definition set_status (t : task) (s : string) : task :=
  mkTask (id t) (title t) (description t) (details t) (testStrategy t)
         (Some s) (priority t) (dependencies t) (subtasks t)
         (parentTaskId t).

Definition set_subtasks (t : task) (l : option (list task)) : task :=
  mkTask (id t) (title t) (description t) (details t) (testStrategy t)
         (status t) (priority t) (dependencies t) l (parentTaskId t).

Definition set_parentTaskId (t : task) (p : Z) : task :=
  mkTask (id t) (title t) (description t) (details t) (testStrategy t)
         (status t) (priority t) (dependencies t) (subtasks t) (Some p).

(** [st.status === 'done' || st.status === 'completed'] *)
Definition is_done (t : task) : bool :=
  match status t with
  | Some s => String.eqb s "done" || String.eqb s "completed"
  | None => false
  end.

(** [tasks.find(t => t.id === n)], with [n] possibly [NaN]. *)
Definition find_by_id (l : list task) (n : option Z) : option task :=
  match n with
  | Some z => find (fun t => id t =? z) l
  | None => None
  end.

(** ** Next-work selector: [findNextTask] *)

Module Selector.

(** [completedTaskIds.has(depId)] *)
Definition completed (tasks : list task) (depId : Z) : bool :=
  JS.includes (map id (filter is_done tasks)) depId.

Definition is_open (t : task) : bool :=
  match status t with
  | Some s => String.eqb s "pending" || String.eqb s "in-progress"
  | None => false
  end.

(** The predicate of [eligibleTasks]; an absent [dependencies] is falsy,
    an empty array is not. *)
Definition eligible (tasks : list task) (t : task) : bool :=
  is_open t &&
  match dependencies t with
  | Some deps => forallb (completed tasks) deps
  | None => false
  end.

(** What a lookup in [priorityValues] gives: a number, or a member
    inherited from [Object.prototype] (a function, and the prototype
    itself for [__proto__]), told apart by its name. *)
Inductive value : Type :=
| Number (n : Z)
| Member (name : string).

(** [priorityValues[key]] for [{ 'high': 3, 'medium': 2, 'low': 1 }];
    [None] is [undefined]. *)
Definition priorityValues (key : string) : option value :=
  if String.eqb key "high" then Some (Number 3)
  else if String.eqb key "medium" then Some (Number 2)
  else if String.eqb key "low" then Some (Number 1)
  else if existsb (String.eqb key) JS.Object_prototype
       then Some (Member key)
  else None.

(** [priorityValues[t.priority || 'medium'] || 2]: [undefined] and [0]
    are falsy, a function or an object is truthy. *)
Definition priorityValue (t : task) : value :=
  match priorityValues (JS.or_str (priority t) "medium") with
  | None | Some (Number 0) => Number 2
  | Some v => v
  end.

(** [x !== y]: an inherited member is the same object only as the member
    of the same name, and is never a number. *)
Definition strict_neq (x y : value) : bool :=
  match x, y with
  | Number m, Number n => negb (m =? n)
  | Member m, Member n => negb (String.eqb m n)
  | _, _ => true
  end.

(** [x - y]; [None] is [NaN], the difference as soon as one side is a
    function or an object. *)
Definition minus (x y : value) : option Z :=
  match x, y with
  | Number m, Number n => Some (m - n)
  | _, _ => None
  end.


(** The comparator given to [sort]; [None] is [NaN]. *)
Definition compareTasks (a b : task) : option Z :=
  let priorityA := priorityValue a in
  let priorityB := priorityValue b in
  if strict_neq priorityB priorityA then minus priorityB priorityA
  else
    match dependencies a, dependencies b with
    | Some da, Some db =>
        if negb (Nat.eqb (List.length da) (List.length db))
        then Some (Z.of_nat (List.length da) - Z.of_nat (List.length db))
        else Some (id a - id b)
    | _, _ => Some (id a - id b)
    end.

(** [findNextTask].  Where the comparator answers [NaN] it is not
    consistent, and which task then comes first is the engine's choice;
    [JS.sort] does not speak for the engine there. *)
Definition findNextTask (tasks : list task) : option task :=
  let eligibleTasks := filter (eligible tasks) tasks in
  match eligibleTasks with
  | [] => None
  | _ => hd_error (JS.sort (fun a b => JS.SortCompare (compareTasks a b))
                           eligibleTasks)
  end.






End Selector.

(** ** Errors and console output *)

(** The errors the operations throw, by message. *)
Inductive error : Type :=
| NoValidTasks            (* No valid tasks found / Invalid or missing tasks file *)
| ParentNotFound (parentId : option Z)     (* Parent task ... not found *)
| ParentHasNoSubtasks (parentId : Z)       (* Parent task ... has no subtasks *)
| SubtaskNotFound (parentId : Z) (subtaskId : option Z)
| TaskNotFound (taskId : option Z)         (* Task ... not found *)
| AlreadySubtask (taskId parentId : Z)     (* ... is already a subtask of task ... *)
| SelfReference                            (* Cannot make a task a subtask of itself *)
| CircularConversion (parentId taskId : Z) (* Cannot create circular dependency ... *)
| MissingArguments        (* Either existingTaskId or newSubtaskData must be provided *)
| InvalidSubtaskIdFormat (subtaskId : string)
| InvalidGeneratedTask    (* the generated task cannot be parsed or lacks a field *)
| StackOverflow           (* RangeError: Maximum call stack size exceeded *)
| NonFiniteId.            (* not thrown by the code: [Math.max] of no id in
                             [removeSubtask], where the parent is a task
                             and the branch cannot be reached *)

Inductive event : Type :=
| Advisory (parentId : Z)        (* "All subtasks of parent task ... are now marked as done." *)
| WarnMissingDeps (deps : list Z).  (* "The following dependencies do not exist: ..." *)

(** Update the first element that satisfies [p], as a mutation of the
    object that [find] returns does. *)
Fixpoint update_first (p : task -> bool) (f : task -> task)
                      (l : list task) : list task :=
  match l with
  | [] => []
  | x :: r => if p x then f x :: r else x :: update_first p f r
  end.

(** [l.splice(i, 1)] for [i] the index of the first element that satisfies
    [p]. *)
Fixpoint remove_first (p : task -> bool) (l : list task) : list task :=
  match l with
  | [] => []
  | x :: r => if p x then r else x :: remove_first p r
  end.

Definition has_id (n : Z) (t : task) : bool := id t =? n.

(** ** Status propagator: [updateSingleTaskStatus], [setTaskStatus] *)

Module Status.

(** [newStatus.toLowerCase() === 'done' ||
     newStatus.toLowerCase() === 'completed'] *)
Definition normalizes_done (s : string) : bool :=
  String.eqb (JS.toLowerCase s) "done" ||
  String.eqb (JS.toLowerCase s) "completed".

(** The cascade of a task marked done onto its subtasks. *)
Definition force_done (newStatus : string) (st : task) : task :=
  if is_done st then st else set_status st newStatus.

(** What follows [task.status = newStatus] on a task: marked done, a
    task with a non-empty [subtasks] has its subtasks that are not done
    set to [newStatus]. *)
Definition cascade (newStatus : string) (t : task) : task :=
  match subtasks t with
  | Some ((_ :: _) as subs) =>
      if normalizes_done newStatus
      then set_subtasks t (Some (map (force_done newStatus) subs))
      else t
  | _ => t
  end.

(** [const [parentId, subtaskId] =
      taskIdInput.split('.').map(id => parseInt(id, 10))] *)
Definition parentIdOf (taskIdInput : string) : option Z :=
  nth 0 (map JS.parseInt (JS.split "." taskIdInput)) None.

Definition subtaskIdOf (taskIdInput : string) : option Z :=
  nth 1 (map JS.parseInt (JS.split "." taskIdInput)) None.

Definition updateSingleTaskStatus (taskIdInput newStatus : string)
           (tasks : list task) : error + (list task * list event) :=
  if JS.includes_char "." taskIdInput then
    let parentId := parentIdOf taskIdInput in
    let subtaskId := subtaskIdOf taskIdInput in
    match find_by_id tasks parentId, parentId with
    | Some parentTask, Some p =>
        match subtasks parentTask with
        | None => inl (ParentHasNoSubtasks p)
        | Some subs =>
            match find_by_id subs subtaskId, subtaskId with
            | Some _, Some s =>
                let subs' :=
                  update_first (has_id s)
                               (fun st => set_status st newStatus) subs in
                let tasks' :=
                  update_first (has_id p)
                               (fun t => set_subtasks t (Some subs')) tasks in
                let out :=
                  if normalizes_done newStatus
                     && forallb is_done subs'
                     && negb (is_done parentTask)
                  then [Advisory p] else [] in
                inr (tasks', out)
            | _, _ => inl (SubtaskNotFound p subtaskId)
            end
        end
    | _, _ => inl (ParentNotFound parentId)
    end
  else
    let taskId := JS.parseInt taskIdInput in
    match find_by_id tasks taskId, taskId with
    | Some _, Some n =>
        inr (update_first (has_id n)
               (fun t => cascade newStatus (set_status t newStatus)) tasks,
             [])
    | _, _ => inl (TaskNotFound taskId)
    end.

(** The loop of [setTaskStatus] over the ids: the first error leaves the
    loop. *)
Fixpoint update_each (ids : list string) (newStatus : string)
         (tasks : list task) (out : list event)
  : error + (list task * list event) :=
  match ids with
  | [] => inr (tasks, out)
  | i :: rest =>
      match updateSingleTaskStatus i newStatus tasks with
      | inl e => inl e
      | inr (tasks', o) => update_each rest newStatus tasks' (out ++ o)
      end
  end.

Definition taskIds (taskIdInput : string) : list string :=
  map JS.trim (JS.split "," taskIdInput).

(** [setTaskStatus] up to [writeJSON].  [file] is what [readJSON] finds:
    [None] when the document cannot be read or has no [tasks].  The
    result is the document afterwards and either the error that ends the
    process with code 1 or the ids updated and the console output.  (What
    follows the write, the validation of dependency-manager.js and the
    regeneration of the task files, is outside the model.) *)
Definition setTaskStatus (file : option (list task))
           (taskIdInput newStatus : string)
  : option (list task) * (error + (list string * list event)) :=
  match file with
  | None => (file, inl NoValidTasks)
  | Some tasks =>
      match update_each (taskIds taskIdInput) newStatus tasks [] with
      | inl e => (file, inl e)
      | inr (tasks', out) => (Some tasks', inr (taskIds taskIdInput, out))
      end
  end.

(** The node an address resolves to, as [updateSingleTaskStatus]
    resolves it. *)
Definition node_at (tasks : list task) (taskIdInput : string)
  : option task :=
  if JS.includes_char "." taskIdInput then
    match find_by_id tasks (parentIdOf taskIdInput) with
    | Some parentTask =>
        match subtasks parentTask with
        | Some subs => find_by_id subs (subtaskIdOf taskIdInput)
        | None => None
        end
    | None => None
    end
  else find_by_id tasks (JS.parseInt taskIdInput).

(** The batch contract in the words of the specification: a failing
    address does not block the others, so every address of the batch that
    resolves has the new status in the document afterwards. *)
Definition spec_isolated_batch (tasks : list task)
           (taskIdInput newStatus : string) : Prop :=
  forall i n,
    In i (taskIds taskIdInput) -> node_at tasks i = Some n ->
    exists tasks' n',
      fst (setTaskStatus (Some tasks) taskIdInput newStatus) = Some tasks'
      /\ node_at tasks' i = Some n' /\ status n' = Some newStatus.

End Status.

(** ** Structural editor: [addTask], [addSubtask], [isTaskDependentOn],
       [removeSubtask] *)

Module Editor.

(** An id argument is a number or a string ([number|string] in the
    source); [parseInt] of an integer is that integer. *)
Inductive idarg : Type :=
| IdNum (n : Z)
| IdStr (s : string).

Definition parseInt_arg (a : idarg) : option Z :=
  match a with
  | IdNum n => Some n
  | IdStr s => JS.parseInt s
  end.

(** [newSubtaskData] *)
Record payload : Type := mkPayload {
  p_title : option string;
  p_description : option string;
  p_details : option string;
  p_status : option string;
  p_dependencies : option (list Z)
}.

(** The fields of the task that the text-completion service returns. *)
Record taskData : Type := mkTaskData {
  td_title : option string;
  td_description : option string;
  td_details : option string;
  td_testStrategy : option string
}.

(** A loop that returns [true] at the first call that does, and is left
    by a call that overflows the stack. *)
Fixpoint any_call {A : Type} (f : A -> option bool) (l : list A)
  : option bool :=
  match l with
  | [] => Some false
  | x :: r =>
      match f x with
      | None => None
      | Some true => Some true
      | Some false => any_call f r
      end
  end.

(** [isTaskDependentOn]; [depth] is the number of nested calls the stack
    has room for, [None] the [RangeError] of a recursion deeper than
    that. *)
Fixpoint isTaskDependentOn (depth : nat) (allTasks : list task)
         (t : task) (targetTaskId : Z) : option bool :=
  match depth with
  | O => None
  | S depth' =>
      if JS.strict_eq (parentTaskId t) targetTaskId then Some true
      else if match dependencies t with
              | Some deps => JS.includes deps targetTaskId
              | None => false
              end then Some true
      else
        match any_call
                (fun depId =>
                   match find_by_id allTasks (Some depId) with
                   | Some depTask =>
                       isTaskDependentOn depth' allTasks depTask targetTaskId
                   | None => Some false
                   end)
                (match dependencies t with Some d => d | None => [] end)
        with
        | None => None
        | Some true => Some true
        | Some false =>
            any_call
              (fun subtask =>
                 isTaskDependentOn depth' allTasks subtask targetTaskId)
              (match subtasks t with Some l => l | None => [] end)
        end
  end.

(** [if (!parentTask.subtasks) parentTask.subtasks = []] *)
Definition init_subtasks (t : task) : task :=
  match subtasks t with
  | Some _ => t
  | None => set_subtasks t (Some [])
  end.

Definition subtask_list (t : task) : list task :=
  match subtasks t with Some l => l | None => [] end.

(** [subtasks.length > 0 ? Math.max(...subtasks.map(st => st.id)) : 0] *)
Definition highestSubtaskId (subs : list task) : Z :=
  match JS.Math_max (map id subs) with
  | Some m => m
  | None => 0
  end.

Definition push_subtask (st : task) (t : task) : task :=
  set_subtasks t (Some (subtask_list t ++ [st])).

(** [addSubtask] on the document in memory: the state of [data.tasks]
    when the call returns or throws, and the new subtask or the error. *)
Definition addSubtask_mem (depth : nat) (tasks : list task)
           (parentId : idarg) (existingTaskId : option idarg)
           (newSubtaskData : option payload)
  : list task * (error + task) :=
  let parentIdNum := parseInt_arg parentId in
  match find_by_id tasks parentIdNum, parentIdNum with
  | Some parentTask0, Some p =>
      let tasks1 := update_first (has_id p) init_subtasks tasks in
      let parentTask := init_subtasks parentTask0 in
      match existingTaskId with
      | Some existing =>
          let existingTaskIdNum := parseInt_arg existing in
          match find_by_id tasks1 existingTaskIdNum, existingTaskIdNum with
          | Some existingTask, Some e =>
              if JS.truthy_num (parentTaskId existingTask) then
                (tasks1,
                 inl (AlreadySubtask e
                        (match parentTaskId existingTask with
                         | Some q => q | None => 0 end)))
              else if e =? p then (tasks1, inl SelfReference)
              else
                match isTaskDependentOn depth tasks1 parentTask e with
                | None => (tasks1, inl StackOverflow)
                | Some true => (tasks1, inl (CircularConversion p e))
                | Some false =>
                    let newSubtaskId :=
                      highestSubtaskId (subtask_list parentTask) + 1 in
                    let newSubtask :=
                      set_parentTaskId (set_id existingTask newSubtaskId) p in
                    (remove_first (has_id e)
                       (update_first (has_id p) (push_subtask newSubtask)
                                     tasks1),
                     inr newSubtask)
                end
          | _, _ => (tasks1, inl (TaskNotFound existingTaskIdNum))
          end
      | None =>
          match newSubtaskData with
          | Some d =>
              let newSubtaskId :=
                highestSubtaskId (subtask_list parentTask) + 1 in
              let newSubtask :=
                mkTask newSubtaskId (p_title d)
                       (Some (JS.or_str (p_description d) ""))
                       (Some (JS.or_str (p_details d) ""))
                       None
                       (Some (JS.or_str (p_status d) "pending"))
                       None
                       (Some (match p_dependencies d with
                              | Some l => l | None => [] end))
                       None
                       (Some p) in
              (update_first (has_id p) (push_subtask newSubtask) tasks1,
               inr newSubtask)
          | None => (tasks1, inl MissingArguments)
          end
      end
  | _, _ => (tasks, inl (ParentNotFound parentIdNum))
  end.

(** [addSubtask] up to [writeJSON]: the document afterwards and the
    result.  An error is rethrown before anything is written. *)
Definition addSubtask (depth : nat) (file : option (list task))
           (parentId : idarg) (existingTaskId : option idarg)
           (newSubtaskData : option payload)
  : option (list task) * (error + task) :=
  match file with
  | None => (file, inl NoValidTasks)
  | Some tasks =>
      match addSubtask_mem depth tasks parentId existingTaskId
                           newSubtaskData with
      | (tasks', inr st) => (Some tasks', inr st)
      | (_, inl e) => (file, inl e)
      end
  end.

(** [removeSubtask] on the document in memory. *)
Definition removeSubtask_mem (tasks : list task) (subtaskId : string)
           (convertToTask : bool)
  : list task * (error + option task) :=
  if negb (JS.includes_char "." subtaskId) then
    (tasks, inl (InvalidSubtaskIdFormat subtaskId))
  else
    let parts := JS.split "." subtaskId in
    let parentId := JS.parseInt (nth 0 parts "") in
    let subtaskIdNum := JS.parseInt (nth 1 parts "") in
    match find_by_id tasks parentId, parentId with
    | Some parentTask, Some p =>
        match subtasks parentTask with
        | None | Some [] => (tasks, inl (ParentHasNoSubtasks p))
        | Some subs =>
            match find_by_id subs subtaskIdNum, subtaskIdNum with
            | Some removedSubtask, Some s =>
                let subs' := remove_first (has_id s) subs in
                let tasks1 :=
                  update_first (has_id p)
                    (fun t => set_subtasks t
                                (match subs' with
                                 | [] => None
                                 | _ => Some subs'
                                 end))
                    tasks in
                if convertToTask then
                  match JS.Math_max (map id tasks1) with
                  | Some highestId =>
                      let newTaskId := highestId + 1 in
                      let deps :=
                        match dependencies removedSubtask with
                        | Some d => d
                        | None => []
                        end in
                      let convertedTask :=
                        mkTask newTaskId (title removedSubtask)
                          (Some (JS.or_str (description removedSubtask) ""))
                          (Some (JS.or_str (details removedSubtask) ""))
                          None
                          (Some (JS.or_str (status removedSubtask)
                                           "pending"))
                          (Some (JS.or_str (priority parentTask) "medium"))
                          (Some (if JS.includes deps p then deps
                                 else deps ++ [p]))
                          None None in
                      (tasks1 ++ [convertedTask], inr (Some convertedTask))
                  | None => (tasks1, inl NonFiniteId)
                  end
                else (tasks1, inr None)
            | _, _ => (tasks, inl (SubtaskNotFound p subtaskIdNum))
            end
        end
    | _, _ => (tasks, inl (ParentNotFound parentId))
    end.

(** [removeSubtask] up to [writeJSON]. *)
Definition removeSubtask (file : option (list task)) (subtaskId : string)
           (convertToTask : bool)
  : option (list task) * (error + option task) :=
  match file with
  | None => (file, inl NoValidTasks)
  | Some tasks =>
      match removeSubtask_mem tasks subtaskId convertToTask with
      | (tasks', inr r) => (Some tasks', inr r)
      | (_, inl e) => (file, inl e)
      end
  end.

(** [t => t.id === depId] holds of some task. *)
Definition task_exists (tasks : list task) (depId : Z) : bool :=
  existsb (has_id depId) tasks.

(** A number that is an integer or [-Infinity]. *)
Inductive number : Type :=
| Finite (n : Z)
| NegInfinity.

(** [highestId + 1] for [highestId = Math.max(...)]: [-Infinity + 1] is
    [-Infinity]. *)
Definition successor (highestId : option Z) : number :=
  match highestId with
  | Some m => Finite (m + 1)
  | None => NegInfinity
  end.

(** The task object [addTask] creates.  Its [id] is the number computed,
    which is [-Infinity] when the document has no task ([JSON.stringify]
    then writes it as [null]). *)
Record createdTask : Type := mkCreatedTask {
  c_id : number;
  c_title : option string;
  c_description : option string;
  c_status : string;
  c_dependencies : list Z;
  c_priority : string;
  c_details : string;
  c_testStrategy : string
}.

Section AddTask.

(** [validateAndFixDependencies] of dependency-manager.js, which is not
    among the sources: what it makes of the tasks in memory, the created
    task pushed after the tasks that were read, as the document that is
    then written. *)
Variable document : Type.
Variable validateAndFixDependencies : list task -> createdTask -> document.

(** [addTask]: the warnings logged, and the new id with the document
    written, or the error that ends the process.  [generated] is the task
    that the text-completion service returned, [None] when the call fails
    or its answer does not parse. *)
Definition addTask (file : option (list task))
           (generated : option taskData)
           (dependencies : list Z) (priority : string)
  : list event * (error + (number * document)) :=
  match file with
  | None => ([], inl NoValidTasks)
  | Some tasks =>
      let highestId := JS.Math_max (map id tasks) in
      let newTaskId := successor highestId in
      let invalidDeps :=
        filter (fun depId => negb (task_exists tasks depId))
               dependencies in
      let warned :=
        match invalidDeps with
        | [] => []
        | _ => [WarnMissingDeps invalidDeps]
        end in
      let dependencies' :=
        match invalidDeps with
        | [] => dependencies
        | _ => filter (fun depId => negb (JS.includes invalidDeps depId))
                      dependencies
        end in
      match generated with
      | Some taskData =>
          if negb (JS.truthy_str (td_title taskData))
             || negb (JS.truthy_str (td_description taskData))
          then (warned, inl InvalidGeneratedTask)
          else
            let newTask :=
              mkCreatedTask newTaskId (td_title taskData)
                (td_description taskData)
                "pending"
                dependencies'
                priority
                (JS.or_str (td_details taskData) "")
                (JS.or_str (td_testStrategy taskData)
                   "Manually verify the implementation works as expected.")
            in
            (warned,
             inr (newTaskId, validateAndFixDependencies tasks newTask))
      | None => (warned, inl InvalidGeneratedTask)
      end
  end.

End AddTask.

Arguments addTask {document} validateAndFixDependencies file generated
  dependencies priority.

(** *** Notions used to state the properties *)

(** [m] is the greatest element of [l]. *)
Definition is_max (m : Z) (l : list Z) : Prop :=
  In m l /\ forall x, In x l -> x <= m.

(** The priority of a converted subtask in the words of the
    specification: its own, and the parent's when it has none. *)
Definition spec_priority (removedSubtask parentTask : task) : string :=
  JS.or_str (priority removedSubtask)
            (JS.or_str (priority parentTask) "medium").

(** The graph [isTaskDependentOn] walks from a node: to the task its
    [parentTaskId] names, to its dependencies, from a dependency that is
    the id of a top-level task on into that task, and into its
    subtasks. *)
Inductive reaches (allTasks : list task) : task -> Z -> Prop :=
| reaches_parent t target :
    parentTaskId t = Some target -> reaches allTasks t target
| reaches_dependency t deps target :
    dependencies t = Some deps -> In target deps ->
    reaches allTasks t target
| reaches_through t deps d depTask target :
    dependencies t = Some deps -> In d deps ->
    find_by_id allTasks (Some d) = Some depTask ->
    reaches allTasks depTask target ->
    reaches allTasks t target
| reaches_subtask t subs st target :
    subtasks t = Some subs -> In st subs ->
    reaches allTasks st target ->
    reaches allTasks t target.

(** [n] is [t] or a subtask nested in [t]. *)
Inductive within : task -> task -> Prop :=
| within_self t : within t t
| within_subtask t subs st n :
    subtasks t = Some subs -> In st subs -> within st n -> within t n.

(** The nesting depth of the subtasks of a node. *)
Fixpoint height (t : task) : nat :=
  match t with
  | mkTask _ _ _ _ _ _ _ _ (Some l) _ => S (list_max (map height l))
  | _ => O
  end.

Definition max_height (tasks : list task) : nat :=
  list_max (map height tasks).

(** The dependencies found in a top-level task, at any depth, that are
    ids of top-level tasks are of lower rank than the task: the walk of
    [isTaskDependentOn] then ends.  (With [rank] the id itself this is
    the rule of the data model, a task depends on lower ids only.) *)
Definition ranked (rank : Z -> nat) (allTasks : list task) : Prop :=
  forall t n deps d depTask,
    In t allTasks -> within t n ->
    dependencies n = Some deps -> In d deps ->
    find_by_id allTasks (Some d) = Some depTask ->
    (rank d < rank (id t))%nat.

End Editor.

(** ** Ingestion of generated records: [parseSubtasksFromText],
       [processApiResponse] (ai-services.js) *)

Module Ingest.

(** The values [JSON.parse] returns.  Numbers are the integers: the code
    only tests the type and the truthiness of a number, and adds an index
    to an integer id; fractions and exponents are not modelled. *)
Inductive json : Type :=
| JNull
| JBool (b : bool)
| JNum (n : Z)
| JStr (s : string)
| JArr (items : list json)
| JObj (fields : list (string * json)).

(** [typeof v === 'number'] *)
Definition is_number (v : json) : bool :=
  match v with JNum _ => true | _ => false end.

(** [typeof v === 'object' && v !== null]: arrays are objects. *)
Definition is_object (v : json) : bool :=
  match v with JArr _ | JObj _ => true | _ => false end.

(** The last binding of a key is the one [JSON.parse] keeps. *)
Fixpoint lookup (k : string) (fields : list (string * json))
  : option json :=
  match fields with
  | [] => None
  | (k', v) :: r =>
      match lookup k r with
      | Some w => Some w
      | None => if String.eqb k' k then Some v else None
      end
  end.

(** [v.k] for one of the keys the code reads; [None] is [undefined]. *)
Definition get (v : json) (k : string) : option json :=
  match v with
  | JObj fields => lookup k fields
  | _ => None
  end.

Definition truthy (o : option json) : bool :=
  match o with
  | None | Some JNull => false
  | Some (JBool b) => b
  | Some (JNum n) => negb (n =? 0)
  | Some (JStr s) => negb (String.eqb s "")
  | Some (JArr _) | Some (JObj _) => true
  end.

(** [x || d] *)
Definition or_else (o : option json) (d : json) : json :=
  match o with
  | Some v => if truthy o then v else d
  | None => d
  end.

(** The decimal form of an integer in a template string. *)
Definition decimal (n : Z) : string :=
  DecimalString.NilZero.string_of_int (Z.to_int n).

(** A validated subtask. *)
Record subtask : Type := mkSubtask {
  s_id : Z;
  s_title : json;
  s_description : json;
  s_status : string;
  s_dependencies : list json;
  s_priority : json;
  s_details : json;
  s_testStrategy : json
}.

(** The callback of [parsed.map]: [None] is the [null] of a skipped
    entry. *)
Definition validate (expectedId : Z) (record : json) : option subtask :=
  if negb (is_object record) then None
  else
    Some (mkSubtask
            (match get record "id" with
             | Some (JNum n) => n
             | _ => expectedId
             end)
            (or_else (get record "title")
                     (JStr (String.append "Subtask " (decimal expectedId))))
            (or_else (get record "description")
                     (JStr "No description provided."))
            "pending"
            (match get record "dependencies" with
             | Some (JArr deps) => filter is_number deps
             | _ => []
             end)
            (or_else (get record "priority") (JStr "medium"))
            (or_else (get record "details") (JStr "No details provided."))
            (or_else (get record "testStrategy")
                     (JStr "Manual verification."))).

(** [parsed.map((subtask, index) => ...)] with [startId + index]. *)
Fixpoint map_validate (startId : Z) (parsed : list json)
  : list (option subtask) :=
  match parsed with
  | [] => []
  | x :: r => validate startId x :: map_validate (startId + 1) r
  end.

(** [.filter(subtask => subtask !== null)] *)
Fixpoint drop_null (l : list (option subtask)) : list subtask :=
  match l with
  | [] => []
  | Some x :: r => x :: drop_null r
  | None :: r => drop_null r
  end.

Definition validatedSubtasks (startId : Z) (parsed : list json)
  : list subtask :=
  drop_null (map_validate startId parsed).

(** [parseSubtasksFromText] from the value [JSON.parse] gives for the
    cleaned text: [None] when the text is empty, holds no array or does
    not parse.  Every error is caught and gives the empty list. *)
Definition parseSubtasksFromText (parsed : option json) (startId : Z)
           (expectedCount : Z) : list subtask :=
  match parsed with
  | Some (JArr items) =>
      let validated := validatedSubtasks startId items in
      if (Z.of_nat (List.length validated) =? 0) && (expectedCount >? 0)
      then []
      else validated
  | _ => []
  end.

(** [o.k = v] on an object. *)
Definition set_field (k : string) (v : json) (fields : list (string * json))
  : list (string * json) :=
  filter (fun kv => negb (String.eqb (fst kv) k)) fields ++ [(k, v)].

(** [processApiResponse] from the value [JSON.parse] gives for the text
    between the first [{] and the last [}]: the document of generated
    tasks that [parsePRD] writes, [None] when the error is thrown.
    [metadata] is the default metadata object. *)
Definition processApiResponse (parsedData : json) (metadata : json)
  : option json :=
  match get parsedData "tasks", parsedData with
  | Some (JArr _), JObj fields =>
      if truthy (get parsedData "metadata") then Some parsedData
      else Some (JObj (set_field "metadata" metadata fields))
  | _, _ => None
  end.

(** The task records of a document. *)
Definition tasks_of (doc : json) : list json :=
  match get doc "tasks" with
  | Some (JArr l) => l
  | _ => []
  end.

(** What [parsePRD] writes as the tasks document: the processed answer,
    as it is. *)
Definition parsePRD (parsedData : json) (metadata : json) : option json :=
  processApiResponse parsedData metadata.

(** A record that satisfies what the specification says of an admitted
    record: it has a title and a status, and its dependencies, if any, are
    numbers. *)
Definition spec_admissible (record : json) : Prop :=
  truthy (get record "title") = true /\
  truthy (get record "status") = true /\
  forall deps, get record "dependencies" = Some (JArr deps) ->
               forallb is_number deps = true.

End Ingest.

(** ** [clearSubtasks] *)

Module Clear.

(** What [clearSubtasks] logs for one id of the batch. *)
Inductive note : Type :=
| InvalidTaskId (taskId : string)        (* Invalid task ID: ... *)
| NotFound (id : Z)                      (* Task ... not found *)
| NothingToClear (id : Z)                (* Task ... has no subtasks to clear *)
| Cleared (id : Z) (subtaskCount : nat). (* Cleared ... subtasks from task ... *)

(** The callback of [taskIdArray.forEach]: every [return] goes on to the
    next id. *)
Definition clear_one (taskId : string) (tasks : list task)
  : list task * note :=
  match JS.parseInt taskId with
  | None => (tasks, InvalidTaskId taskId)
  | Some n =>
      match find_by_id tasks (Some n) with
      | None => (tasks, NotFound n)
      | Some t =>
          match subtasks t with
          | None | Some [] => (tasks, NothingToClear n)
          | Some subs =>
              (update_first (has_id n) (fun t => set_subtasks t (Some []))
                            tasks,
               Cleared n (List.length subs))
          end
      end
  end.

Fixpoint clear_each (ids : list string) (tasks : list task)
  : list task * list note :=
  match ids with
  | [] => (tasks, [])
  | i :: rest =>
      let (tasks1, n) := clear_one i tasks in
      let (tasks2, ns) := clear_each rest tasks1 in
      (tasks2, n :: ns)
  end.

Definition is_cleared (n : note) : bool :=
  match n with Cleared _ _ => true | _ => false end.

(** [clearedCount] *)
Definition clearedCount (notes : list note) : nat :=
  List.length (filter is_cleared notes).

(** [clearSubtasks] up to [writeJSON]: the document afterwards, whether it
    was written, and the notes, or the error that ends the process. *)
Definition clearSubtasks (file : option (list task)) (taskIds : string)
  : option (list task) * (error + (bool * list note)) :=
  match file with
  | None => (file, inl NoValidTasks)
  | Some tasks =>
      let (tasks', notes) := clear_each (Status.taskIds taskIds) tasks in
      if (0 <? clearedCount notes)%nat
      then (Some tasks', inr (true, notes))
      else (file, inr (false, notes))
  end.

End Clear.

(** ** The statistics of [listTasks] *)

Module Listing.

(** [statusFilter ? data.tasks.filter(...) : data.tasks] *)
Definition filteredTasks (statusFilter : option string) (tasks : list task)
  : list task :=
  match statusFilter with
  | Some f =>
      if String.eqb f "" then tasks
      else filter (fun t =>
                     match status t with
                     | Some s =>
                         negb (String.eqb s "") &&
                         String.eqb (JS.toLowerCase s) (JS.toLowerCase f)
                     | None => false
                     end) tasks
  | None => tasks
  end.

Definition has_status (s : string) (t : task) : bool :=
  match status t with
  | Some x => String.eqb x s
  | None => false
  end.

Definition totalTasks (tasks : list task) : nat := List.length tasks.

Definition completedTasks (tasks : list task) : nat :=
  List.length (filter is_done tasks).

Definition inProgressCount (tasks : list task) : nat :=
  List.length (filter (has_status "in-progress") tasks).

Definition pendingCount (tasks : list task) : nat :=
  List.length (filter (has_status "pending") tasks).

Definition blockedCount (tasks : list task) : nat :=
  List.length (filter (has_status "blocked") tasks).

Definition deferredCount (tasks : list task) : nat :=
  List.length (filter (has_status "deferred") tasks).

(** The loop that counts the subtasks and the completed ones. *)
Definition totalSubtasks (tasks : list task) : nat :=
  fold_left (fun n t =>
               match subtasks t with
               | Some ((_ :: _) as subs) => (n + List.length subs)%nat
               | _ => n
               end) tasks O.

Definition completedSubtasks (tasks : list task) : nat :=
  fold_left (fun n t =>
               match subtasks t with
               | Some ((_ :: _) as subs) =>
                   (n + List.length (filter is_done subs))%nat
               | _ => n
               end) tasks O.

(** [!t.dependencies || t.dependencies.length === 0] *)
Definition no_deps (t : task) : bool :=
  match dependencies t with
  | None | Some [] => true
  | Some _ => false
  end.

Definition all_deps_done (tasks : list task) (t : task) : bool :=
  match dependencies t with
  | Some deps => forallb (Selector.completed tasks) deps
  | None => false
  end.

Definition tasksWithNoDeps (tasks : list task) : nat :=
  List.length (filter (fun t => negb (is_done t) && no_deps t) tasks).

Definition tasksWithAllDepsSatisfied (tasks : list task) : nat :=
  List.length
    (filter (fun t => negb (is_done t) && negb (no_deps t)
                      && all_deps_done tasks t) tasks).

Definition tasksWithUnsatisfiedDeps (tasks : list task) : nat :=
  List.length
    (filter (fun t => negb (is_done t) && negb (no_deps t)
                      && negb (all_deps_done tasks t)) tasks).

Definition tasksReadyToWork (tasks : list task) : nat :=
  (tasksWithNoDeps tasks + tasksWithAllDepsSatisfied tasks)%nat.

(** [data.tasks.reduce((sum, task) => sum + (task.dependencies ?
      task.dependencies.length : 0), 0)] *)
Definition totalDependencies (tasks : list task) : nat :=
  fold_left (fun sum t =>
               (sum + match dependencies t with
                      | Some d => List.length d
                      | None => O
                      end)%nat) tasks O.

End Listing.

(** ** [updateTasks] *)

Module Update.

(** [data.tasks.filter(task => task.id >= fromId && task.status !== 'done')] *)
Definition tasksToUpdate (fromId : Z) (tasks : list task) : list task :=
  filter (fun t => (fromId <=? id t) && negb (Listing.has_status "done" t))
         tasks.

(** The callback of [updatedTasks.forEach]: the first task with the id of
    the updated task is replaced by it; an id of no task changes nothing. *)
Definition replace_task (tasks : list task) (updatedTask : task)
  : list task :=
  update_first (has_id (id updatedTask)) (fun _ => updatedTask) tasks.

(** [updateTasks] up to [writeJSON]: the document afterwards and the number
    of updated tasks, [None] when there is nothing to update, or the error
    that ends the process.  [updatedTasks] is the answer of the
    text-completion service for the tasks to update, [None] when the call
    or the parsing of the answer fails. *)
Definition updateTasks (file : option (list task)) (fromId : Z)
           (updatedTasks : list task -> option (list task))
  : option (list task) * (error + option nat) :=
  match file with
  | None => (file, inl NoValidTasks)
  | Some tasks =>
      match tasksToUpdate fromId tasks with
      | [] => (file, inr None)
      | toUpdate =>
          match updatedTasks toUpdate with
          | None => (file, inl InvalidGeneratedTask)
          | Some updated =>
              (Some (fold_left replace_task updated tasks),
               inr (Some (List.length updated)))
          end
      end
  end.

End Update.

(** ** [expandTask], [expandAllTasks] and the bounds of
       [generateComplexityAnalysisPrompt] *)

Module Expand.

(** [task.subtasks.length > 0 ?
      Math.max(...task.subtasks.map(st => st.id)) + 1 : 1], after the
    [subtasks] of the task have been initialized. *)
Definition nextSubtaskId (t : task) : Z :=
  match JS.Math_max (map id (Editor.subtask_list t)) with
  | Some m => m + 1
  | None => 1
  end.




(** [Number(CONFIG.defaultSubtasks) || 3]; [None] is [NaN]. *)
Definition defaultSubtasks (configured : option Z) : Z :=
  match configured with
  | Some n => if n =? 0 then 3 else n
  | None => 3
  end.

(** [Math.max(2, defaultSubtasks - 1)] *)
Definition minSubtasks (configured : option Z) : Z :=
  Z.max 2 (defaultSubtasks configured - 1).

(** [Math.min(10, defaultSubtasks + 2)] *)
Definition maxSubtasks (configured : option Z) : Z :=
  Z.min 10 (defaultSubtasks configured + 2).

End Expand.

(** ** Notions used to state further properties *)

(** The ids of a task and of its subtasks, in order. *)
Definition shape (t : task) : Z * option (list Z) :=
  (id t, option_map (map id) (subtasks t)).

(** The first task with id [n], if any, has no subtask. *)
Definition no_subtasks_at (tasks : list task) (n : Z) : Prop :=
  match find_by_id tasks (Some n) with
  | Some t => Editor.subtask_list t = []
  | None => True
  end.

(** A generated record that carries no numeric id of its own. *)
Definition no_own_id (record : Ingest.json) : Prop :=
  match Ingest.get record "id" with
  | Some (Ingest.JNum _) => False
  | _ => True
  end.

(** ** Sample documents *)

Module Samples.

Definition plain (n : Z) (st : string) (prio : option string)
           (deps : option (list Z)) : task :=
  mkTask n (Some "t") None None None (Some st) prio deps None None.

(** The scenario of the selector: task 1 done, tasks 2 (high) and 3 (low)
    pending on it. *)
Definition next_scenario : list task :=
  [ plain 1 "done" None (Some []);
    plain 2 "pending" (Some "high") (Some [1]);
    plain 3 "pending" (Some "low") (Some [1]) ].

(** A pending high-priority task without a [dependencies] field, and a
    pending low-priority task with an empty one. *)
Definition no_deps_field : task := plain 1 "pending" (Some "high") None.

(** Two pending tasks; task 1 has a pending and a done subtask. *)
Definition two_tasks : list task :=
  [ mkTask 1 (Some "t") None None None (Some "pending") None (Some [])
           (Some [plain 1 "pending" None None; plain 2 "done" None None])
           None;
    plain 2 "pending" None (Some [1]) ].

(** A project whose greatest id is 5; task 2 (low priority) has the
    subtask 2.1, of high priority. *)
Definition project : list task :=
  [ plain 1 "done" None (Some []);
    mkTask 2 (Some "t") None None None (Some "pending") (Some "low")
           (Some [1])
           (Some [mkTask 1 (Some "s") (Some "d") None None None
                         (Some "high") (Some [1]) None (Some 2)])
           None;
    plain 5 "pending" (Some "medium") (Some [2]) ].

(** An answer of the text-completion service to a requirements document:
    one task record, with an id and a non-numeric dependency only. *)
Definition generated_tasks : Ingest.json :=
  Ingest.JObj
    [("tasks",
      Ingest.JArr
        [Ingest.JObj [("id", Ingest.JNum 1);
                      ("dependencies", Ingest.JArr [Ingest.JStr "x"])]])].

(** An answer to an expansion: a record without title, a number, and a
    record with a title and mixed dependencies. *)
Definition generated_subtasks : list Ingest.json :=
  [ Ingest.JObj [("description", Ingest.JStr "d")];
    Ingest.JNum 7;
    Ingest.JObj [("title", Ingest.JStr "b");
                 ("status", Ingest.JStr "done");
                 ("dependencies",
                  Ingest.JArr [Ingest.JNum 1; Ingest.JStr "2";
                               Ingest.JNull; Ingest.JNum 3])] ].

End Samples.

(** * Properties *)

(** ** The next-work selector *)

Section SelectorProperties.
Import Selector.



Lemma completed_iff tasks d :
  completed tasks d = true <->
  exists u, In u tasks /\ id u = d /\ is_done u = true.
Proof.
  unfold completed, JS.includes. rewrite existsb_exists. split.
  - intros (x & Hin & Hx). apply in_map_iff in Hin.
    destruct Hin as (u & <- & Hu). apply filter_In in Hu.
    exists u. repeat split; try tauto. now apply Z.eqb_eq.
  - intros (u & Hin & <- & Hd). exists (id u). split.
    + apply in_map, filter_In. now split.
    + apply Z.eqb_refl.
Qed.







Lemma insert_In (cmp : task -> task -> Z) a l x :
  In x (JS.insert cmp a l) <-> x = a \/ In x l.
Proof.
  induction l as [|b r IH]; simpl.
  - intuition congruence.
  - destruct (cmp a b <=? 0); simpl; rewrite ?IH; intuition congruence.
Qed.

Lemma sort_In (cmp : task -> task -> Z) l x :
  In x (JS.sort cmp l) <-> In x l.
Proof.
  induction l as [|a r IH]; simpl; [tauto|].
  rewrite insert_In, IH. intuition congruence.
Qed.


(** What [findNextTask] returns is an eligible task of the list. *)
Lemma findNextTask_Some tasks t :
  findNextTask tasks = Some t ->
  In t tasks /\ eligible tasks t = true /\
  exists r,
    JS.sort (fun a b => JS.SortCompare (compareTasks a b))
            (filter (eligible tasks) tasks) = t :: r.
Proof.
  unfold findNextTask. intros H.
  set (cmp := fun a b => JS.SortCompare (compareTasks a b)) in *.
  set (el := filter (eligible tasks) tasks) in *.
  assert (Hs : exists r, JS.sort cmp el = t :: r).
  { destruct el; [discriminate|].
    destruct (JS.sort cmp (t0 :: el)); inversion H. eauto. }
  destruct Hs as [r Hs].
  assert (Hin : In t el).
  { apply (sort_In cmp). rewrite Hs. now left. }
  unfold el in Hin. apply filter_In in Hin. destruct Hin as [Hin He].
  repeat split; trivial. now exists r.
Qed.


(** A priority that names an inherited member makes the comparator
    answer [NaN] against every task whose priority is looked up as
    something else, in both directions: [sort] reads the two tasks as
    equal, whatever their priorities, dependencies and ids. *)
Lemma compareTasks_inherited a b name :
  priorityValue a = Member name -> priorityValue b <> Member name ->
  compareTasks a b = None /\ compareTasks b a = None.
Proof.
  unfold compareTasks. intros Ha Hb. rewrite Ha.
  destruct (priorityValue b) as [n|m]; simpl; [tauto|].
  assert (E : String.eqb m name = false)
    by (apply String.eqb_neq; congruence).
  rewrite E, String.eqb_sym, E. simpl. tauto.
Qed.





(** C10: a task whose [dependencies] field is absent is never returned by
    [findNextTask], whatever its status; what is returned is an element
    of the top-level task list, with a [dependencies] field. *)
Theorem findNextTask_needs_dependencies_field :
  forall tasks,
    (forall t, dependencies t = None -> findNextTask tasks <> Some t) /\
    (forall r, findNextTask tasks = Some r ->
               In r tasks /\ dependencies r <> None).
Proof.
  intros tasks.
  assert (H : forall r, findNextTask tasks = Some r ->
                        In r tasks /\ dependencies r <> None).
  { intros r Hr. apply findNextTask_Some in Hr.
    destruct Hr as (Hin & He & _). split; trivial.
    unfold eligible in He. destruct (dependencies r); [congruence|].
    rewrite andb_false_r in He. discriminate. }
  split; trivial. intros t Hnone Hr. apply H in Hr. tauto.
Qed.

Lemma findNextTask_needs_dependencies_field_witness :
  findNextTask [Samples.no_deps_field] <> Some Samples.no_deps_field.
Proof.
  apply (proj1 (findNextTask_needs_dependencies_field
                  [Samples.no_deps_field])).
  reflexivity.
Defined.

End SelectorProperties.

(** ** The status propagator *)

Section StatusProperties.
Import Status.

Lemma find_split (p : task -> bool) (f : task -> task) l x :
  find p l = Some x ->
  exists l1 l2,
    l = l1 ++ x :: l2 /\ update_first p f l = l1 ++ f x :: l2 /\
    forall y, In y l1 -> p y = false.
Proof.
  induction l as [|a l IH]; simpl; [discriminate|].
  destruct (p a) eqn:E; intros H.
  - inversion H; subst. exists [], l. simpl. repeat split; trivial.
    intros y [].
  - destruct (IH H) as (l1 & l2 & -> & -> & Hl1).
    exists (a :: l1), l2. simpl. repeat split; trivial.
    intros y [<-|Hy]; auto.
Qed.

Lemma find_middle (p : task -> bool) l1 x l2 :
  (forall y, In y l1 -> p y = false) -> p x = true ->
  find p (l1 ++ x :: l2) = Some x.
Proof.
  intros Hl1 Hx. induction l1 as [|a l1 IH]; simpl.
  - now rewrite Hx.
  - rewrite (Hl1 a) by now left. apply IH. intros y Hy. apply Hl1.
    now right.
Qed.

Lemma normalizes_done_of_is_done st :
  is_done st = true ->
  exists s, status st = Some s /\ normalizes_done s = true.
Proof.
  unfold is_done. destruct (status st) as [s|]; [|discriminate].
  rewrite orb_true_iff, !String.eqb_eq.
  intros [->| ->]; eexists; split; reflexivity.
Qed.

Lemma set_subtasks_same t l : subtasks t = l -> set_subtasks t l = t.
Proof. destruct t; simpl. now intros ->. Qed.

Lemma cascade_done newStatus t subs :
  subtasks t = Some subs -> normalizes_done newStatus = true ->
  cascade newStatus t =
  set_subtasks t (Some (map (force_done newStatus) subs)).
Proof.
  intros Hs Hn. unfold cascade. rewrite Hs, Hn.
  destruct subs; trivial. simpl. symmetry. now apply set_subtasks_same.
Qed.

(** C2: marking a task done (a status whose lower case is [done] or
    [completed]) sets the status of the task and gives every subtask that
    is not done the new status, leaving the done ones as they are: every
    subtask then has a status that normalizes to done, and one that is
    [done] or [completed] when the new status is one of these. *)
Theorem task_done_cascades_to_subtasks :
  forall tasks taskIdInput newStatus n T subs,
    JS.includes_char "." taskIdInput = false ->
    JS.parseInt taskIdInput = Some n ->
    find_by_id tasks (Some n) = Some T ->
    subtasks T = Some subs ->
    normalizes_done newStatus = true ->
    exists l1 l2 T',
      tasks = l1 ++ T :: l2 /\
      updateSingleTaskStatus taskIdInput newStatus tasks
        = inr (l1 ++ T' :: l2, []) /\
      find_by_id (l1 ++ T' :: l2) (Some n) = Some T' /\
      status T' = Some newStatus /\
      subtasks T' = Some (map (force_done newStatus) subs) /\
      (forall st, In st subs ->
         force_done newStatus st =
         if is_done st then st else set_status st newStatus) /\
      (forall st', In st' (map (force_done newStatus) subs) ->
         exists s, status st' = Some s /\ normalizes_done s = true) /\
      (newStatus = "done" \/ newStatus = "completed" ->
         forallb is_done (map (force_done newStatus) subs) = true).
Proof.
  intros tasks taskIdInput newStatus n T subs Hdot Hparse Hfind Hsubs Hnorm.
  simpl in Hfind.
  destruct (find_split (has_id n)
              (fun t => cascade newStatus (set_status t newStatus))
              tasks T Hfind) as (l1 & l2 & Htasks & Hupd & Hl1).
  assert (HidT : has_id n T = true).
  { apply find_some in Hfind. tauto. }
  rewrite (cascade_done newStatus (set_status T newStatus) subs) in Hupd
    by trivial.
  exists l1, l2,
    (set_subtasks (set_status T newStatus)
                  (Some (map (force_done newStatus) subs))).
  split; [trivial|]. split; [|split; [|split; [|split; [|split; [|split]]]]].
  - unfold updateSingleTaskStatus. rewrite Hdot, Hparse. simpl.
    rewrite Hfind. now rewrite Hupd.
  - simpl. apply find_middle; trivial.
  - reflexivity.
  - reflexivity.
  - intros st _. reflexivity.
  - intros st' Hin. apply in_map_iff in Hin.
    destruct Hin as (st & <- & _). unfold force_done.
    destruct (is_done st) eqn:E.
    + now apply normalizes_done_of_is_done.
    + exists newStatus. split; trivial.
  - intros Hnew. apply forallb_forall. intros st' Hin.
    apply in_map_iff in Hin. destruct Hin as (st & <- & _).
    unfold force_done. destruct (is_done st) eqn:E; trivial.
    unfold is_done. simpl. destruct Hnew as [-> | ->]; reflexivity.
Qed.

Lemma task_done_cascades_to_subtasks_witness :
  exists l1 l2 T',
    Samples.two_tasks = l1 ++ hd Samples.no_deps_field Samples.two_tasks
                              :: l2 /\
    updateSingleTaskStatus "1" "done" Samples.two_tasks
      = inr (l1 ++ T' :: l2, []) /\
    subtasks T' =
      Some [Samples.plain 1 "done" None None;
            Samples.plain 2 "done" None None].
Proof.
  destruct (task_done_cascades_to_subtasks
              Samples.two_tasks "1" "done" 1
              (hd Samples.no_deps_field Samples.two_tasks)
              [Samples.plain 1 "pending" None None;
               Samples.plain 2 "done" None None]
              eq_refl eq_refl eq_refl eq_refl eq_refl)
    as (l1 & l2 & T' & H1 & H2 & _ & _ & H5 & _).
  exists l1, l2, T'. repeat split; trivial.
Defined.

(** C6: setting the status of a subtask changes, in the parent, nothing
    but the status of that subtask: the parent keeps its status and every
    other field of its own, and the other tasks are untouched.  When this
    leaves every subtask of the parent done while the parent is not, the
    advisory is printed. *)
Theorem subtask_done_only_advises_parent :
  forall tasks taskIdInput newStatus p s P subs S,
    JS.includes_char "." taskIdInput = true ->
    parentIdOf taskIdInput = Some p ->
    subtaskIdOf taskIdInput = Some s ->
    find_by_id tasks (Some p) = Some P ->
    subtasks P = Some subs ->
    find_by_id subs (Some s) = Some S ->
    exists l1 l2 P' subs' out,
      tasks = l1 ++ P :: l2 /\
      updateSingleTaskStatus taskIdInput newStatus tasks
        = inr (l1 ++ P' :: l2, out) /\
      find_by_id (l1 ++ P' :: l2) (Some p) = Some P' /\
      subs' = update_first (has_id s)
                (fun st => set_status st newStatus) subs /\
      P' = set_subtasks P (Some subs') /\
      (status P' = status P /\ id P' = id P /\ title P' = title P /\
       description P' = description P /\ details P' = details P /\
       testStrategy P' = testStrategy P /\ priority P' = priority P /\
       dependencies P' = dependencies P /\
       parentTaskId P' = parentTaskId P) /\
      (forallb is_done subs' = true -> is_done P = false ->
       out = [Advisory p]).
Proof.
  intros tasks taskIdInput newStatus p s P subs S
         Hdot Hp Hs HP Hsubs HS.
  simpl in HP, HS.
  set (subs' := update_first (has_id s)
                  (fun st => set_status st newStatus) subs).
  destruct (find_split (has_id p)
              (fun t => set_subtasks t (Some subs')) tasks P HP)
    as (l1 & l2 & Htasks & Hupd & Hl1).
  assert (HidP : has_id p P = true) by (apply find_some in HP; tauto).
  exists l1, l2, (set_subtasks P (Some subs')), subs',
    (if normalizes_done newStatus && forallb is_done subs'
        && negb (is_done P)
     then [Advisory p] else []).
  split; [trivial|]. split; [|split; [|split; [|split; [|split]]]].
  - unfold updateSingleTaskStatus. rewrite Hdot, Hp, Hs. simpl.
    rewrite HP, Hsubs. simpl. rewrite HS. fold subs'. now rewrite Hupd.
  - simpl. apply find_middle; trivial.
  - reflexivity.
  - reflexivity.
  - repeat split.
  - intros Hall HPd. rewrite Hall, HPd.
    assert (Hn : normalizes_done newStatus = true).
    { destruct (find_split (has_id s)
                  (fun st => set_status st newStatus) subs S HS)
        as (m1 & m2 & _ & Hm & _).
      fold subs' in Hm. rewrite Hm in Hall.
      rewrite forallb_app in Hall. apply andb_true_iff in Hall.
      destruct Hall as [_ Hall]. simpl in Hall.
      apply andb_true_iff in Hall. destruct Hall as [Hd _].
      apply normalizes_done_of_is_done in Hd.
      destruct Hd as (x & Hx & Hnx). simpl in Hx. congruence. }
    now rewrite Hn.
Qed.

Lemma subtask_done_only_advises_parent_witness :
  exists l1 l2 P' subs' out,
    Samples.two_tasks
      = l1 ++ hd Samples.no_deps_field Samples.two_tasks :: l2 /\
    updateSingleTaskStatus "1.1" "done" Samples.two_tasks
      = inr (l1 ++ P' :: l2, out) /\
    status P' = Some "pending" /\
    (forallb is_done subs' = true -> out = [Advisory 1]).
Proof.
  destruct (subtask_done_only_advises_parent
              Samples.two_tasks "1.1" "done" 1 1
              (hd Samples.no_deps_field Samples.two_tasks)
              [Samples.plain 1 "pending" None None;
               Samples.plain 2 "done" None None]
              (Samples.plain 1 "pending" None None)
              eq_refl eq_refl eq_refl eq_refl eq_refl eq_refl)
    as (l1 & l2 & P' & subs' & out & H1 & H2 & _ & _ & _ & H6 & H7).
  exists l1, l2, P', subs', out. repeat split; trivial.
  - now destruct H6 as [-> _].
  - intros Hall. now apply H7.
Defined.

Lemma update_each_stops before bad after newStatus :
  forall tasks out tasks1 out1 e,
    update_each before newStatus tasks out = inr (tasks1, out1) ->
    updateSingleTaskStatus bad newStatus tasks1 = inl e ->
    update_each (before ++ bad :: after) newStatus tasks out = inl e.
Proof.
  induction before as [|i before IH]; simpl;
    intros tasks out tasks1 out1 e Hb Hbad.
  - inversion Hb; subst. now rewrite Hbad.
  - destruct (updateSingleTaskStatus i newStatus tasks) as [e'|[t' o]];
      [discriminate|].
    eapply IH; eauto.
Qed.

(** An update fails exactly on an address that resolves to no node. *)
Lemma update_fails_iff_unresolved taskIdInput newStatus tasks :
  (exists e, updateSingleTaskStatus taskIdInput newStatus tasks = inl e)
  <-> node_at tasks taskIdInput = None.
Proof.
  unfold updateSingleTaskStatus, node_at.
  destruct (JS.includes_char "." taskIdInput).
  - destruct (parentIdOf taskIdInput) as [p|]; simpl.
    + destruct (find (fun t => id t =? p) tasks) as [P|].
      * destruct (subtasks P) as [subs|].
        -- destruct (subtaskIdOf taskIdInput) as [s|]; simpl.
           ++ destruct (find (fun t => id t =? s) subs).
              ** split; [intros [e H]; discriminate | discriminate].
              ** split; eauto.
           ++ split; eauto.
        -- split; eauto.
      * split; eauto.
    + split; eauto.
  - destruct (JS.parseInt taskIdInput) as [n|]; simpl.
    + destruct (find (fun t => id t =? n) tasks).
      * split; [intros [e H]; discriminate | discriminate].
      * split; eauto.
    + split; eauto.
Qed.

(** C1, as stated, fails: in the batch ["9,2"] the address 9 does not
    resolve, and the update of task 2, which does, is never made: the
    process ends with the error and the document is left as it was. *)
Lemma setTaskStatus_batch_not_isolated :
  setTaskStatus (Some Samples.two_tasks) "9,2" "done"
    = (Some Samples.two_tasks, inl (TaskNotFound (Some 9))) /\
  ~ spec_isolated_batch Samples.two_tasks "9,2" "done".
Proof.
  split; [reflexivity|]. intros H.
  destruct (H "2" (Samples.plain 2 "pending" None (Some [1])))
    as (tasks' & n' & Hf & Hn & Hs).
  - right. now left.
  - reflexivity.
  - vm_compute in Hf. inversion Hf; subst.
    vm_compute in Hn. inversion Hn; subst. discriminate.
Qed.

(** C1 (amended): the addresses of a comma-delimited batch are updated
    one after the other on the same document; the first address whose
    update fails, one that resolves to no node of the document as the
    updates before it left it, ends the batch: the error ends the process,
    the addresses after it are not looked at and nothing is written.  When
    every update succeeds, the document with all of them is written and
    the ids are reported. *)
Theorem setTaskStatus_stops_at_first_failure :
  forall tasks taskIdInput newStatus,
    (forall before bad after tasks1 out1,
        taskIds taskIdInput = before ++ bad :: after ->
        update_each before newStatus tasks [] = inr (tasks1, out1) ->
        node_at tasks1 bad = None ->
        exists e,
          updateSingleTaskStatus bad newStatus tasks1 = inl e /\
          setTaskStatus (Some tasks) taskIdInput newStatus
            = (Some tasks, inl e)) /\
    (forall tasks' out,
        update_each (taskIds taskIdInput) newStatus tasks []
          = inr (tasks', out) ->
        setTaskStatus (Some tasks) taskIdInput newStatus
          = (Some tasks', inr (taskIds taskIdInput, out))).
Proof.
  intros tasks taskIdInput newStatus. split.
  - intros before bad after tasks1 out1 Hids Hb Hbad.
    apply update_fails_iff_unresolved with (newStatus := newStatus) in Hbad.
    destruct Hbad as [e Hbad]. exists e. split; trivial.
    unfold setTaskStatus. rewrite Hids.
    now rewrite (update_each_stops before bad after newStatus
                   tasks [] tasks1 out1 e Hb Hbad).
  - intros tasks' out H. unfold setTaskStatus. now rewrite H.
Qed.

Lemma setTaskStatus_stops_at_first_failure_witness :
  exists e,
    updateSingleTaskStatus "7" "done"
      (fst (match updateSingleTaskStatus "1.1" "done" Samples.two_tasks with
            | inr r => r
            | inl _ => ([], [])
            end)) = inl e /\
    setTaskStatus (Some Samples.two_tasks) "1.1, 7 ,2" "done"
      = (Some Samples.two_tasks, inl e).
Proof.
  apply (proj1 (setTaskStatus_stops_at_first_failure
                  Samples.two_tasks "1.1, 7 ,2" "done")
               ["1.1"] "7" ["2"]
               (fst (match updateSingleTaskStatus "1.1" "done"
                             Samples.two_tasks with
                     | inr r => r
                     | inl _ => ([], [])
                     end))
               [Advisory 1]);
    reflexivity.
Defined.

End StatusProperties.

(** ** The structural editor *)

Section EditorProperties.
Import Editor.

Lemma update_first_middle (p : task -> bool) f l1 x l2 :
  (forall y, In y l1 -> p y = false) -> p x = true ->
  update_first p f (l1 ++ x :: l2) = l1 ++ f x :: l2.
Proof.
  intros Hl1 Hx. induction l1 as [|a l1 IH]; simpl.
  - now rewrite Hx.
  - rewrite (Hl1 a) by now left. f_equal. apply IH.
    intros y Hy. apply Hl1. now right.
Qed.

Lemma fold_left_max_spec r : forall x,
  is_max (fold_left Z.max r x) (x :: r).
Proof.
  induction r as [|a r IH]; intros x; simpl.
  - split; [now left | intros y [<-|[]]; lia].
  - destruct (IH (Z.max x a)) as [Hin Hle]. split.
    + destruct Hin as [Hin|Hin]; [|right; right; exact Hin].
      destruct (Z.max_spec x a) as [[_ E]|[_ E]];
        rewrite E in Hin at 1; [right; left; exact Hin | left; exact Hin].
    + intros y [<-|[<-|Hy]].
      * specialize (Hle (Z.max x a) (or_introl eq_refl)). lia.
      * specialize (Hle (Z.max x a) (or_introl eq_refl)). lia.
      * apply Hle. now right.
Qed.

Lemma Math_max_is_max l m : JS.Math_max l = Some m -> is_max m l.
Proof.
  destruct l as [|x r]; simpl; [discriminate|].
  intros H. inversion H. apply fold_left_max_spec.
Qed.

Lemma Math_max_nonempty l : l <> [] -> exists m, JS.Math_max l = Some m.
Proof. destruct l; [congruence | eexists; reflexivity]. Qed.

Lemma is_max_unique l m m' : is_max m l -> is_max m' l -> m = m'.
Proof.
  intros [Hin Hle] [Hin' Hle']. specialize (Hle _ Hin').
  specialize (Hle' _ Hin). lia.
Qed.

Lemma highestSubtaskId_spec subs :
  (subs = [] -> highestSubtaskId subs = 0) /\
  (forall m, is_max m (map id subs) -> highestSubtaskId subs = m).
Proof.
  unfold highestSubtaskId. split.
  - now intros ->.
  - intros m Hm. destruct (JS.Math_max (map id subs)) as [m'|] eqn:E.
    + apply Math_max_is_max in E. eapply is_max_unique; eauto.
    + destruct subs; [destruct Hm as [[] _] | discriminate].
Qed.

Lemma has_id_init p t : has_id p (init_subtasks t) = has_id p t.
Proof. unfold init_subtasks. now destruct (subtasks t). Qed.

Lemma subtask_list_init t :
  subtask_list (init_subtasks t) = subtask_list t.
Proof.
  unfold init_subtasks, subtask_list.
  destruct (subtasks t) eqn:E; [now rewrite E | reflexivity].
Qed.

Lemma set_subtasks_init t l :
  set_subtasks (init_subtasks t) l = set_subtasks t l.
Proof. unfold init_subtasks. now destruct (subtasks t). Qed.

(** C7: [addSubtask] with a payload gives the new subtask the id that
    follows the greatest id among the subtasks of the parent (1 when
    there is none), the status of the payload or [pending] when the
    payload has none, and the id of the parent as [parentTaskId]; it is
    appended to the subtasks of the parent.  A [parentId] that is the id
    of no task is the error "Parent task ... not found", and nothing is
    written.  On a task 2 without subtasks the new subtask is 2.1. *)
Theorem addSubtask_new_subtask :
  (forall depth tasks parentId p P d,
      parseInt_arg parentId = Some p ->
      find_by_id tasks (Some p) = Some P ->
      exists l1 l2 newSubtask,
        tasks = l1 ++ P :: l2 /\
        addSubtask depth (Some tasks) parentId None (Some d)
          = (Some (l1 ++ set_subtasks P
                           (Some (subtask_list P ++ [newSubtask])) :: l2),
             inr newSubtask) /\
        (subtask_list P = [] -> id newSubtask = 1) /\
        (forall m, is_max m (map id (subtask_list P)) ->
                   id newSubtask = m + 1) /\
        status newSubtask = Some (JS.or_str (p_status d) "pending") /\
        (p_status d = None -> status newSubtask = Some "pending") /\
        parentTaskId newSubtask = Some p) /\
  (forall depth tasks parentId existingTaskId newSubtaskData,
      find_by_id tasks (parseInt_arg parentId) = None ->
      addSubtask depth (Some tasks) parentId existingTaskId newSubtaskData
        = (Some tasks, inl (ParentNotFound (parseInt_arg parentId)))) /\
  (exists tasks' newSubtask,
      addSubtask 0 (Some Samples.two_tasks) (IdNum 2) None
                 (Some (mkPayload (Some "x") None None None None))
        = (Some tasks', inr newSubtask) /\
      id newSubtask = 1 /\ parentTaskId newSubtask = Some 2 /\
      Status.node_at tasks' "2.1" = Some newSubtask).
Proof.
  split; [|split].
  - intros depth tasks parentId p P d Hp HP. simpl in HP.
    destruct (find_split (has_id p) init_subtasks tasks P HP)
      as (l1 & l2 & Htasks & Hupd & Hl1).
    assert (HidP : has_id p P = true) by (apply find_some in HP; tauto).
    eexists l1, l2, _. split; [exact Htasks|]. split.
    + unfold addSubtask, addSubtask_mem. rewrite Hp. simpl.
      rewrite HP, Hupd.
      rewrite update_first_middle;
        [|trivial | now rewrite has_id_init].
      unfold push_subtask. rewrite !subtask_list_init.
      now rewrite set_subtasks_init.
    + simpl. destruct (highestSubtaskId_spec (subtask_list P)) as [H0 Hm].
      repeat split.
      * intros E. now rewrite H0.
      * intros m Hmax. now rewrite (Hm m Hmax).
      * now intros ->.
  - intros depth tasks parentId existingTaskId newSubtaskData H.
    unfold addSubtask, addSubtask_mem. rewrite H.
    now destruct (parseInt_arg parentId).
  - eexists _, _. repeat split.
Qed.

Lemma addSubtask_new_subtask_witness :
  exists l1 l2 newSubtask,
    Samples.project = l1 ++ nth 1 Samples.project Samples.no_deps_field
                          :: l2 /\
    id newSubtask = 2 /\ status newSubtask = Some "pending".
Proof.
  destruct (proj1 addSubtask_new_subtask 0%nat Samples.project (IdStr "2") 2
              (nth 1 Samples.project Samples.no_deps_field)
              (mkPayload (Some "x") None None None None)
              eq_refl eq_refl)
    as (l1 & l2 & st & H1 & _ & _ & H4 & _ & H6 & _).
  exists l1, l2, st. repeat split; trivial.
  - apply (H4 1). split; [now left | intros x [Hx|[]]; simpl in Hx; lia].
  - now apply H6.
Defined.

Lemma task_exists_iff tasks d :
  task_exists tasks d = true <-> exists t, In t tasks /\ id t = d.
Proof.
  unfold task_exists, has_id. rewrite existsb_exists.
  split; intros (t & Hin & H); exists t; split; trivial; lia.
Qed.

Lemma filter_none {A} (f : A -> bool) l :
  (forall x, f x = false) -> filter f l = [].
Proof.
  intros H. induction l as [|a l IH]; simpl; [|rewrite H]; trivial.
Qed.

Lemma filter_all {A} (f : A -> bool) l :
  (forall x, f x = true) -> filter f l = l.
Proof.
  intros H. induction l as [|a l IH]; simpl; [|rewrite H, IH]; trivial.
Qed.

(** The two filters of [addTask] keep the dependencies that are ids of
    tasks. *)
Lemma addTask_filters tasks deps :
  let invalidDeps := filter (fun d => negb (task_exists tasks d)) deps in
  match invalidDeps with
  | [] => deps
  | _ => filter (fun d => negb (JS.includes invalidDeps d)) deps
  end = filter (task_exists tasks) deps.
Proof.
  intros inv.
  assert (Hinv : forall d, In d deps ->
            negb (JS.includes inv d) = task_exists tasks d).
  { intros d Hd. unfold JS.includes.
    destruct (task_exists tasks d) eqn:E.
    - apply negb_true_iff.
      destruct (existsb (fun x => x =? d) inv) eqn:F; trivial.
      apply existsb_exists in F. destruct F as (x & Hx & Hxd).
      apply Z.eqb_eq in Hxd. subst x. apply filter_In in Hx.
      rewrite E in Hx. now destruct Hx.
    - apply negb_false_iff, existsb_exists. exists d. split.
      + apply filter_In. rewrite E. now split.
      + apply Z.eqb_refl. }
  destruct inv as [|x inv'] eqn:E.
  - subst inv. symmetry. apply forallb_filter_id, forallb_forall. intros d Hd.
    rewrite <- (Hinv d Hd). reflexivity.
  - apply filter_ext_in. exact Hinv.
Qed.

(** C8: on every document, a project without tasks included, [addTask]
    gives the created task the supplied dependencies that are ids of
    tasks, in the order given; the others are dropped with a warning, and
    the task is created and pushed all the same: the only failure is a
    generated task that is missing or lacks its title or description.
    The new id follows the greatest id of the tasks; on a document with
    no task, where there is none, it is [-Infinity]: the computation is
    not guarded as the one of [addSubtask] is. *)
Theorem addTask_drops_missing_dependencies :
  forall (document : Type)
         (validateAndFixDependencies : list task -> createdTask -> document)
         tasks deps priority,
    (forall generated,
        JS.truthy_str (td_title generated) = true ->
        JS.truthy_str (td_description generated) = true ->
        exists warned newTask,
          addTask validateAndFixDependencies (Some tasks) (Some generated)
                  deps priority
            = (warned,
               inr (c_id newTask,
                    validateAndFixDependencies tasks newTask)) /\
          (forall m, is_max m (map id tasks) ->
                     c_id newTask = Finite (m + 1)) /\
          (tasks = [] ->
           c_id newTask = NegInfinity /\ c_dependencies newTask = [] /\
           warned = match deps with
                    | [] => []
                    | _ => [WarnMissingDeps deps]
                    end) /\
          c_dependencies newTask = filter (task_exists tasks) deps /\
          (forall d, In d (c_dependencies newTask) <->
                     In d deps /\ exists t, In t tasks /\ id t = d) /\
          warned =
            match filter (fun d => negb (task_exists tasks d)) deps with
            | [] => []
            | dropped => [WarnMissingDeps dropped]
            end /\
          c_title newTask = td_title generated /\
          c_description newTask = td_description generated /\
          c_status newTask = "pending" /\
          c_priority newTask = priority) /\
    (forall generated warned e,
        addTask validateAndFixDependencies (Some tasks) generated
                deps priority = (warned, inl e) ->
        e = InvalidGeneratedTask /\
        match generated with
        | Some g => JS.truthy_str (td_title g) = false \/
                    JS.truthy_str (td_description g) = false
        | None => True
        end).
Proof.
  intros document fix_deps tasks deps priority. split.
  - intros generated Ht Hd.
    pose proof (addTask_filters tasks deps) as Hf. cbv zeta in Hf.
    eexists _, (mkCreatedTask _ _ _ _ _ _ _ _). split.
    { unfold addTask. rewrite Ht, Hd. simpl. reflexivity. }
    cbn [c_id c_dependencies c_title c_description c_status c_priority].
    rewrite Hf.
    split; [|split; [|split; [|split; [|split]]]].
    + intros m Hm. unfold successor.
      destruct (JS.Math_max (map id tasks)) as [m'|] eqn:E.
      * apply Math_max_is_max in E.
        now rewrite (is_max_unique _ _ _ Hm E).
      * destruct tasks; [destruct Hm as [[] _] | discriminate].
    + intros ->. split; [reflexivity|].
      rewrite (filter_none (task_exists [])) by reflexivity.
      rewrite (filter_all (fun d => negb (task_exists [] d)))
        by reflexivity.
      split; [reflexivity | now destruct deps].
    + reflexivity.
    + intros d. rewrite filter_In, task_exists_iff. tauto.
    + now destruct (filter (fun d => negb (task_exists tasks d)) deps).
    + repeat split.
  - intros generated warned e. unfold addTask.
    destruct generated as [g|]; [|intros H; now inversion H].
    destruct (JS.truthy_str (td_title g)); simpl;
      [|intros H; inversion H; auto].
    destruct (JS.truthy_str (td_description g)); simpl;
      [discriminate | intros H; inversion H; auto].
Qed.

Lemma addTask_drops_missing_dependencies_witness :
  (exists warned newTask,
      addTask (fun tasks newTask => (tasks, newTask)) (Some [])
              (Some (mkTaskData (Some "x") (Some "y") None None))
              [1; 2] "medium"
        = (warned, inr (NegInfinity, ([], newTask))) /\
      c_id newTask = NegInfinity /\
      c_dependencies newTask = [] /\
      warned = [WarnMissingDeps [1; 2]]) /\
  (exists warned newTask,
      addTask (fun tasks newTask => (tasks, newTask))
              (Some Samples.project)
              (Some (mkTaskData (Some "x") (Some "y") None None))
              [1; 9; 2; 7] "medium"
        = (warned, inr (Finite 6, (Samples.project, newTask))) /\
      c_dependencies newTask = [1; 2] /\
      warned = [WarnMissingDeps [9; 7]]).
Proof.
  split.
  - destruct (proj1 (addTask_drops_missing_dependencies
                       _ (fun tasks newTask => (tasks, newTask))
                       [] [1; 2] "medium")
                    (mkTaskData (Some "x") (Some "y") None None)
                    eq_refl eq_refl)
      as (warned & newTask & H1 & _ & H3 & _).
    destruct (H3 eq_refl) as (Hid & Hdeps & Hw).
    exists warned, newTask. rewrite Hid in H1. now repeat split.
  - destruct (proj1 (addTask_drops_missing_dependencies
                       _ (fun tasks newTask => (tasks, newTask))
                       Samples.project [1; 9; 2; 7] "medium")
                    (mkTaskData (Some "x") (Some "y") None None)
                    eq_refl eq_refl)
      as (warned & newTask & H1 & H2 & _ & H4 & _ & H6 & _).
    assert (Hid : c_id newTask = Finite 6).
    { apply (H2 5). split; [simpl; tauto|].
      intros x Hx. simpl in Hx. intuition lia. }
    exists warned, newTask. rewrite Hid in H1. now repeat split.
Defined.

(** C4, as stated, fails: subtask 2.1 has priority high and its parent
    priority low; converted to a task it has the priority of the parent,
    not its own. *)
Lemma removeSubtask_priority_not_inherited :
  exists tasks' converted,
    removeSubtask (Some Samples.project) "2.1" true
      = (Some tasks', inr (Some converted)) /\
    id converted = 6 /\
    priority converted = Some "low" /\
    spec_priority
      (mkTask 1 (Some "s") (Some "d") None None None (Some "high")
              (Some [1]) None (Some 2))
      (nth 1 Samples.project Samples.no_deps_field) = "high" /\
    priority converted <>
      Some (spec_priority
              (mkTask 1 (Some "s") (Some "d") None None None (Some "high")
                      (Some [1]) None (Some 2))
              (nth 1 Samples.project Samples.no_deps_field)).
Proof. eexists _, _. repeat split. discriminate. Qed.

(** C4 (amended): [removeSubtask] with [convertToTask] takes the subtask
    out of the subtasks of its parent (the field is deleted when the list
    becomes empty) and appends a new task whose id follows the greatest
    task id, with the title, description, details, status and dependencies
    of the subtask (defaults for the absent ones), the id of the former
    parent appended to the dependencies unless it is among them, and the
    priority of the parent ([medium] when the parent has none), whatever
    the priority of the subtask. *)
Theorem removeSubtask_converts_to_task :
  forall tasks subtaskId p s P subs S,
    JS.includes_char "." subtaskId = true ->
    JS.parseInt (nth 0 (JS.split "." subtaskId) "") = Some p ->
    JS.parseInt (nth 1 (JS.split "." subtaskId) "") = Some s ->
    find_by_id tasks (Some p) = Some P ->
    subtasks P = Some subs ->
    find_by_id subs (Some s) = Some S ->
    exists l1 l2 m converted deps',
      tasks = l1 ++ P :: l2 /\
      is_max m (map id tasks) /\
      removeSubtask (Some tasks) subtaskId true
        = (Some ((l1 ++ set_subtasks P
                          match remove_first (has_id s) subs with
                          | [] => None
                          | rest => Some rest
                          end :: l2) ++ [converted]),
           inr (Some converted)) /\
      id converted = m + 1 /\
      title converted = title S /\
      description converted = Some (JS.or_str (description S) "") /\
      details converted = Some (JS.or_str (details S) "") /\
      status converted = Some (JS.or_str (status S) "pending") /\
      priority converted = Some (JS.or_str (priority P) "medium") /\
      dependencies converted = Some deps' /\
      In p deps' /\
      deps' =
        (let deps := match dependencies S with Some d => d | None => [] end in
         if JS.includes deps p then deps else deps ++ [p]).
Proof.
  intros tasks subtaskId p s P subs S Hdot Hp Hs HP Hsubs HS.
  simpl in HP, HS.
  set (rest := remove_first (has_id s) subs).
  set (f := fun t => set_subtasks t
                       match rest with [] => None | _ => Some rest end).
  destruct (find_split (has_id p) f tasks P HP)
    as (l1 & l2 & Htasks & Hupd & Hl1).
  assert (Hids : map id (l1 ++ f P :: l2) = map id tasks).
  { rewrite Htasks, !map_app. reflexivity. }
  destruct (Math_max_nonempty (map id tasks)) as [m Hm].
  { rewrite Htasks, map_app. now destruct l1. }
  set (deps := match dependencies S with Some d => d | None => [] end).
  exists l1, l2, m. eexists _, (if JS.includes deps p then deps
                                else deps ++ [p]).
  split; [exact Htasks|]. split; [now apply Math_max_is_max|]. split.
  - unfold removeSubtask, removeSubtask_mem. rewrite Hdot, Hp, Hs. simpl.
    rewrite HP, Hsubs. destruct subs as [|x subs']; [discriminate|].
    rewrite HS. fold rest. fold f. rewrite Hupd, Hids, Hm.
    unfold f. destruct rest; reflexivity.
  - simpl. repeat split.
    fold deps. destruct (JS.includes deps p) eqn:E.
    + unfold JS.includes in E. apply existsb_exists in E.
      destruct E as (x & Hx & Hxp). apply Z.eqb_eq in Hxp. now subst.
    + apply in_or_app. right. now left.
Qed.

Lemma removeSubtask_converts_to_task_witness :
  exists l1 l2 m converted deps',
    Samples.project
      = l1 ++ nth 1 Samples.project Samples.no_deps_field :: l2 /\
    is_max m (map id Samples.project) /\
    id converted = m + 1 /\
    dependencies converted = Some deps' /\ In 2 deps'.
Proof.
  destruct (removeSubtask_converts_to_task
              Samples.project "2.1" 2 1
              (nth 1 Samples.project Samples.no_deps_field)
              [mkTask 1 (Some "s") (Some "d") None None None (Some "high")
                      (Some [1]) None (Some 2)]
              (mkTask 1 (Some "s") (Some "d") None None None (Some "high")
                      (Some [1]) None (Some 2))
              eq_refl eq_refl eq_refl eq_refl eq_refl eq_refl)
    as (l1 & l2 & m & c & deps' & H1 & H2 & _ & H4 & _ & _ & _ & _ & _
        & H10 & H11 & _).
  exists l1, l2, m, c, deps'. repeat split; trivial; apply H2.
Defined.

(** *** The walk of [isTaskDependentOn] *)

Lemma any_call_false {A : Type} (f : A -> option bool) l :
  any_call f l = Some false -> forall x, In x l -> f x = Some false.
Proof.
  induction l as [|a l IH]; simpl; intros H x Hx; [destruct Hx|].
  destruct (f a) as [[|]|] eqn:E; try discriminate.
  destruct Hx as [<-|Hx]; auto.
Qed.

Lemma any_call_returns {A : Type} (f : A -> option bool) l :
  (forall x, In x l -> f x <> None) -> any_call f l <> None.
Proof.
  induction l as [|a l IH]; simpl; intros H; [discriminate|].
  destruct (f a) as [[|]|] eqn:E.
  - discriminate.
  - apply IH. intros x Hx. apply H. now right.
  - exfalso. apply (H a); auto.
Qed.

Lemma any_call_ext {A : Type} (f g : A -> option bool) l :
  (forall x, In x l -> f x = g x) -> any_call f l = any_call g l.
Proof.
  induction l as [|a l IH]; simpl; intros H; trivial.
  rewrite (H a) by now left. rewrite IH; trivial.
  intros x Hx. apply H. now right.
Qed.

Lemma isTaskDependentOn_step depth allTasks t target :
  isTaskDependentOn (S depth) allTasks t target =
  if JS.strict_eq (parentTaskId t) target then Some true
  else if match dependencies t with
          | Some deps => JS.includes deps target
          | None => false
          end then Some true
  else
    match any_call
            (fun depId =>
               match find_by_id allTasks (Some depId) with
               | Some depTask =>
                   isTaskDependentOn depth allTasks depTask target
               | None => Some false
               end)
            (match dependencies t with Some d => d | None => [] end)
    with
    | None => None
    | Some true => Some true
    | Some false =>
        any_call
          (fun subtask => isTaskDependentOn depth allTasks subtask target)
          (match subtasks t with Some l => l | None => [] end)
    end.
Proof. reflexivity. Qed.

(** A target that the walk can reach is never missed: the call answers
    [true] or overflows the stack. *)
Lemma reaches_never_false allTasks t target :
  reaches allTasks t target ->
  forall depth, isTaskDependentOn depth allTasks t target <> Some false.
Proof.
  induction 1 as [t target Hp | t deps target Hd Hin
                  | t deps d depTask target Hd Hin Hf _ IH
                  | t subs st target Hs Hin _ IH];
    intros [|depth]; try (simpl; discriminate);
    rewrite isTaskDependentOn_step.
  - rewrite Hp. simpl. now rewrite Z.eqb_refl.
  - destruct (JS.strict_eq (parentTaskId t) target); [discriminate|].
    rewrite Hd. replace (JS.includes deps target) with true; [discriminate|].
    symmetry. apply existsb_exists. exists target. split; trivial.
    apply Z.eqb_refl.
  - destruct (JS.strict_eq (parentTaskId t) target); [discriminate|].
    rewrite Hd. destruct (JS.includes deps target); [discriminate|].
    match goal with |- context [any_call ?f deps] =>
      destruct (any_call f deps) as [[|]|] eqn:A; try discriminate;
      pose proof (any_call_false f deps A d Hin) as Hd'
    end.
    simpl in Hd', Hf. rewrite Hf in Hd'. now apply IH in Hd'.
  - destruct (JS.strict_eq (parentTaskId t) target); [discriminate|].
    destruct (match dependencies t with
              | Some deps => JS.includes deps target
              | None => false
              end); [discriminate|].
    match goal with |- context [any_call ?f ?l] =>
      destruct (any_call f l) as [[|]|]; try discriminate
    end.
    rewrite Hs. intros A.
    apply (IH depth). exact (any_call_false _ _ A st Hin).
Qed.

Lemma within_step t n subs st :
  within t n -> subtasks n = Some subs -> In st subs -> within t st.
Proof.
  induction 1 as [t | t subs' st' n Hs Hin _ IH]; intros Hn Hst.
  - eapply within_subtask; eauto. constructor.
  - eapply within_subtask; eauto.
Qed.

Lemma list_max_In l x : In x l -> (x <= list_max l)%nat.
Proof.
  intros H. assert (F : Forall (fun k => (k <= list_max l)%nat) l)
    by (apply list_max_le; lia).
  rewrite Forall_forall in F. auto.
Qed.

Lemma height_subtask n subs st :
  subtasks n = Some subs -> In st subs -> (height st < height n)%nat.
Proof.
  destruct n; simpl. intros -> Hin.
  apply Nat.lt_succ_r, list_max_In, in_map, Hin.
Qed.

Lemma height_max allTasks t :
  In t allTasks -> (height t <= max_height allTasks)%nat.
Proof. intros H. apply list_max_In, in_map, H. Qed.

(** On ranked data the walk ends within a stack of the stated depth. *)
Lemma isTaskDependentOn_returns rank allTasks target :
  ranked rank allTasks ->
  forall depth t n,
    In t allTasks -> within t n ->
    (rank (id t) * S (max_height allTasks) + height n < depth)%nat ->
    isTaskDependentOn depth allTasks n target <> None.
Proof.
  intros Hr. induction depth as [|depth IH]; intros t n Ht Hn Hm; [lia|].
  rewrite isTaskDependentOn_step.
  destruct (JS.strict_eq (parentTaskId n) target); [discriminate|].
  destruct (match dependencies n with
            | Some deps => JS.includes deps target
            | None => false
            end); [discriminate|].
  match goal with |- context [any_call ?f ?l] =>
    pose proof (any_call_returns f l) as Hdeps;
    destruct (any_call f l) as [[|]|]
  end.
  - discriminate.
  - apply any_call_returns. intros st Hst.
    destruct (subtasks n) as [subs|] eqn:Hs; [|destruct Hst].
    apply (IH t st Ht).
    + eapply within_step; eauto.
    + pose proof (height_subtask n subs st Hs Hst). lia.
  - exfalso. apply Hdeps; trivial. intros d Hd.
    destruct (dependencies n) as [deps|] eqn:Hdn; [|destruct Hd].
    destruct (find_by_id allTasks (Some d)) as [depTask|] eqn:Hf;
      [|discriminate].
    pose proof (Hr t n deps d depTask Ht Hn Hdn Hd Hf) as Hlt.
    simpl in Hf. pose proof (find_some _ _ Hf) as [HinT HidT].
    unfold has_id in HidT. apply Z.eqb_eq in HidT.
    apply (IH depTask depTask HinT (within_self depTask)).
    pose proof (height_max allTasks depTask HinT). rewrite HidT. nia.
Qed.

(** *** Conversion of a task to a subtask *)

Lemma find_after_init p d tasks :
  match find_by_id tasks (Some d) with
  | Some x =>
      find_by_id (update_first (has_id p) init_subtasks tasks) (Some d)
        = Some x \/
      find_by_id (update_first (has_id p) init_subtasks tasks) (Some d)
        = Some (init_subtasks x)
  | None =>
      find_by_id (update_first (has_id p) init_subtasks tasks) (Some d)
        = None
  end.
Proof.
  simpl. induction tasks as [|a l IH]; simpl; trivial.
  destruct (has_id p a) eqn:Ep; simpl.
  - fold (has_id d (init_subtasks a)). rewrite has_id_init.
    fold (has_id d a). destruct (has_id d a); [now right|].
    destruct (find (fun t => id t =? d) l); auto.
  - destruct (id a =? d); [now left|]. exact IH.
Qed.

Lemma isTaskDependentOn_init depth allTasks t target :
  isTaskDependentOn depth allTasks (init_subtasks t) target
  = isTaskDependentOn depth allTasks t target.
Proof.
  destruct depth as [|depth]; trivial.
  rewrite !isTaskDependentOn_step. unfold init_subtasks.
  destruct (subtasks t) eqn:E; trivial.
  destruct t; simpl in *. now rewrite E.
Qed.

Lemma isTaskDependentOn_after_init p tasks target :
  forall depth t,
    isTaskDependentOn depth
      (update_first (has_id p) init_subtasks tasks) t target
    = isTaskDependentOn depth tasks t target.
Proof.
  induction depth as [|depth IH]; intros t; trivial.
  rewrite !isTaskDependentOn_step.
  destruct (JS.strict_eq (parentTaskId t) target); trivial.
  destruct (match dependencies t with
            | Some deps => JS.includes deps target
            | None => false
            end); trivial.
  match goal with
  | |- match any_call ?f ?l with _ => _ end
       = match any_call ?g ?l with _ => _ end =>
      rewrite (any_call_ext f g l)
  end.
  - match goal with |- context [any_call ?g ?l] =>
      destruct (any_call g l) as [[|]|]; trivial
    end.
    apply any_call_ext. intros st _. apply IH.
  - intros d _. pose proof (find_after_init p d tasks) as H.
    destruct (find_by_id tasks (Some d)) as [x|].
    + destruct H as [-> | ->]; rewrite IH; trivial.
      apply isTaskDependentOn_init.
    + now rewrite H.
Qed.

(** C5, as stated, fails: on a failure the document in memory is not what
    it was, a parent without a [subtasks] field has been given an empty
    one before the checks are made. *)
Lemma addSubtask_failure_changes_memory :
  snd (addSubtask_mem 8 Samples.two_tasks (IdNum 2) (Some (IdNum 2)) None)
    = inl SelfReference /\
  fst (addSubtask_mem 8 Samples.two_tasks (IdNum 2) (Some (IdNum 2)) None)
    <> Samples.two_tasks.
Proof. split; [reflexivity | discriminate]. Qed.

(** C5 (amended): when both ids are ids of tasks, converting a task to a
    subtask fails with "already a subtask" when the task has a non-zero
    [parentTaskId]; if not, with "a subtask of itself" when the two ids are
    equal; if not, when the walk of [isTaskDependentOn] from the parent can
    reach the task (by the [parentTaskId], the dependencies and the
    subtasks), with the circular-dependency error, or with a stack overflow
    when the walk is too deep, which it is not on ranked data.  On every
    failure nothing is written; in memory the tasks are as they were, but
    for the empty [subtasks] given to a parent that had none. *)
Theorem convert_task_to_subtask_failures :
  forall depth tasks parentId existingTaskId newSubtaskData p e P E,
    parseInt_arg parentId = Some p ->
    parseInt_arg existingTaskId = Some e ->
    find_by_id tasks (Some p) = Some P ->
    find_by_id tasks (Some e) = Some E ->
    let run := addSubtask_mem depth tasks parentId (Some existingTaskId)
                              newSubtaskData in
    let saved := addSubtask depth (Some tasks) parentId (Some existingTaskId)
                            newSubtaskData in
    (forall q, parentTaskId E = Some q -> q <> 0 ->
               snd run = inl (AlreadySubtask e q)) /\
    (JS.truthy_num (parentTaskId E) = false -> e = p ->
     snd run = inl SelfReference) /\
    (JS.truthy_num (parentTaskId E) = false -> e <> p ->
     reaches tasks P e ->
     (snd run = inl (CircularConversion p e) \/ snd run = inl StackOverflow)
     /\
     (forall rank,
         ranked rank tasks ->
         (rank p * S (max_height tasks) + height P < depth)%nat ->
         snd run = inl (CircularConversion p e))) /\
    (forall err, snd run = inl err ->
       saved = (Some tasks, inl err) /\
       fst run = update_first (has_id p) init_subtasks tasks /\
       (subtasks P <> None -> fst run = tasks)).
Proof.
  intros depth tasks parentId existingTaskId newSubtaskData p e P E
         Hp He HP HE run saved.
  assert (Hsame : subtasks P <> None ->
                  update_first (has_id p) init_subtasks tasks = tasks).
  { intros Hs. simpl in HP.
    destruct (find_split (has_id p) init_subtasks tasks P HP)
      as (l1 & l2 & Ht & Hu & _).
    rewrite Hu, Ht at 1. unfold init_subtasks.
    now destruct (subtasks P). }
  assert (HinP : In P tasks /\ id P = p).
  { simpl in HP. apply find_some in HP. destruct HP as [? H].
    apply Z.eqb_eq in H. now split. }
  assert (Hrun : exists E1,
    parentTaskId E1 = parentTaskId E /\
    run =
    let tasks1 := update_first (has_id p) init_subtasks tasks in
    if JS.truthy_num (parentTaskId E1) then
      (tasks1, inl (AlreadySubtask e (match parentTaskId E1 with
                                      | Some q => q | None => 0 end)))
    else if e =? p then (tasks1, inl SelfReference)
    else
      match isTaskDependentOn depth tasks P e with
      | None => (tasks1, inl StackOverflow)
      | Some true => (tasks1, inl (CircularConversion p e))
      | Some false =>
          let newSubtask :=
            set_parentTaskId
              (set_id E1 (highestSubtaskId
                            (subtask_list (init_subtasks P)) + 1)) p in
          (remove_first (has_id e)
             (update_first (has_id p) (push_subtask newSubtask) tasks1),
           inr newSubtask)
      end).
  { pose proof (find_after_init p e tasks) as H. rewrite HE in H.
    assert (H' : exists E1, parentTaskId E1 = parentTaskId E /\
              find_by_id (update_first (has_id p) init_subtasks tasks)
                         (Some e) = Some E1).
    { destruct H as [H|H]; eexists; split; try exact H; trivial.
      unfold init_subtasks. now destruct (subtasks E). }
    destruct H' as (E1 & Hpar & Hf). exists E1. split; trivial.
    unfold run, addSubtask_mem. rewrite Hp, He. simpl.
    simpl in HP. rewrite HP. simpl in Hf. rewrite Hf.
    rewrite isTaskDependentOn_after_init, isTaskDependentOn_init.
    reflexivity. }
  destruct Hrun as (E1 & Hpar & Hrun). rewrite Hpar in Hrun.
  simpl in Hrun.
  split; [|split; [|split]].
  - intros q Hq Hq0. rewrite Hrun, Hq. simpl.
    apply Z.eqb_neq in Hq0. now rewrite Hq0.
  - intros Hfalsy ->. now rewrite Hrun, Hfalsy, Z.eqb_refl.
  - intros Hfalsy Hne Hreach. rewrite Hrun, Hfalsy.
    apply Z.eqb_neq in Hne. rewrite Hne.
    pose proof (reaches_never_false tasks P e Hreach depth) as Hnf.
    split.
    + destruct (isTaskDependentOn depth tasks P e) as [[|]|];
        auto; congruence.
    + intros rank Hr Hdepth.
      pose proof (isTaskDependentOn_returns rank tasks e Hr depth P P
                    (proj1 HinP) (within_self P)) as Hret.
      destruct HinP as [_ HidP]. rewrite HidP in Hret.
      specialize (Hret Hdepth).
      destruct (isTaskDependentOn depth tasks P e) as [[|]|];
        auto; congruence.
  - intros err Herr. unfold saved, addSubtask. fold run.
    destruct run as [mem [err'|st]] eqn:R; simpl in Herr;
      [|discriminate].
    inversion Herr; subst err'. split; trivial. simpl.
    assert (Hmem : mem = update_first (has_id p) init_subtasks tasks).
    { destruct (JS.truthy_num (parentTaskId E));
        [now inversion Hrun|].
      destruct (e =? p); [now inversion Hrun|].
      destruct (isTaskDependentOn depth tasks P e) as [[|]|];
        now inversion Hrun. }
    split; trivial. intros Hs. rewrite Hmem. now apply Hsame.
Qed.

Lemma project_ranked : ranked Z.to_nat Samples.project.
Proof.
  intros t n deps d depTask Ht Hn Hd Hin _.
  assert (Hcases : (n = t /\ id t <> 2) \/
                   (id t = 2 /\ (dependencies n = Some [1]))).
  { destruct Ht as [<-|[<-|[<-|[]]]].
    - left. split; [|discriminate].
      inversion Hn; subst; trivial. discriminate.
    - right. split; trivial.
      inversion Hn as [|? ? ? ? Hs Hst Hw]; subst; trivial.
      inversion Hs; subst. destruct Hst as [<-|[]].
      inversion Hw; subst; trivial. discriminate.
    - left. split; [|discriminate].
      inversion Hn; subst; trivial. discriminate. }
  destruct Hcases as [[-> Hne]|[Hid2 Hdn]].
  - destruct Ht as [<-|[<-|[<-|[]]]]; simpl in Hd; inversion Hd; subst;
      try destruct Hin as [<-|[]]; try destruct Hin; simpl; lia.
  - rewrite Hdn in Hd. inversion Hd; subst. destruct Hin as [<-|[]].
    rewrite Hid2. simpl. lia.
Qed.

Lemma convert_task_to_subtask_failures_witness :
  snd (addSubtask_mem 0 Samples.project (IdNum 1) (Some (IdNum 1)) None)
    = inl SelfReference /\
  snd (addSubtask_mem 11 Samples.project (IdNum 5) (Some (IdNum 1)) None)
    = inl (CircularConversion 5 1).
Proof.
  split.
  - apply (convert_task_to_subtask_failures
             0%nat Samples.project (IdNum 1) (IdNum 1) None 1 1
             (nth 0 Samples.project Samples.no_deps_field)
             (nth 0 Samples.project Samples.no_deps_field)
             eq_refl eq_refl eq_refl eq_refl);
      reflexivity.
  - apply (convert_task_to_subtask_failures
             11%nat Samples.project (IdNum 5) (IdNum 1) None 5 1
             (nth 2 Samples.project Samples.no_deps_field)
             (nth 0 Samples.project Samples.no_deps_field)
             eq_refl eq_refl eq_refl eq_refl) with (rank := Z.to_nat).
    + reflexivity.
    + discriminate.
    + eapply reaches_through with (d := 2);
        [reflexivity | now left | reflexivity |].
      eapply reaches_dependency; [reflexivity | now left].
    + exact project_ranked.
    + vm_compute. lia.
Defined.

End EditorProperties.

(** ** The ingestion of generated records *)

Section IngestProperties.
Import Ingest.

Lemma drop_null_In l r : In r (drop_null l) <-> In (Some r) l.
Proof.
  induction l as [|[x|] l IH]; simpl.
  - tauto.
  - rewrite IH. split; intros [H|H]; auto; left;
      [now subst | now inversion H].
  - rewrite IH. split; [auto | intros [H|H]; [discriminate | trivial]].
Qed.

Lemma map_validate_In items : forall startId o,
  In o (map_validate startId items) <->
  exists i record,
    nth_error items i = Some record /\
    o = validate (startId + Z.of_nat i) record.
Proof.
  induction items as [|x items IH]; intros startId o; simpl.
  - split; [tauto | intros ([|i] & record & H & _); discriminate].
  - rewrite IH. split.
    + intros [<-|(i & record & Hn & ->)].
      * exists O, x. split; trivial. simpl. now rewrite Z.add_0_r.
      * exists (S i), record. split; trivial. f_equal. lia.
    + intros ([|i] & record & Hn & ->); simpl in Hn.
      * left. inversion Hn. simpl. now rewrite Z.add_0_r.
      * right. exists i, record. split; trivial. f_equal. lia.
Qed.

Lemma parseSubtasksFromText_array items startId expectedCount :
  parseSubtasksFromText (Some (JArr items)) startId expectedCount
  = validatedSubtasks startId items.
Proof.
  unfold parseSubtasksFromText.
  destruct (validatedSubtasks startId items); simpl; trivial.
  now destruct (expectedCount >? 0).
Qed.

Lemma or_else_truthy o d :
  (truthy o = true -> o = Some (or_else o d)) /\
  (truthy o = false -> or_else o d = d).
Proof.
  unfold or_else. destruct o as [v|].
  - destruct (truthy (Some v)); split; congruence.
  - split; [discriminate | trivial].
Qed.

(** C9, as stated, fails: the task records generated from a requirements
    document are written as they come, here one without title or status
    and with a non-numeric dependency. *)
Lemma generated_task_admitted_unvalidated :
  exists doc record,
    parsePRD Samples.generated_tasks JNull = Some doc /\
    tasks_of doc = [record] /\
    get record "title" = None /\ get record "status" = None /\
    get record "dependencies" = Some (JArr [JStr "x"]) /\
    ~ spec_admissible record.
Proof.
  eexists _, _. repeat split. intros (H & _). discriminate.
Qed.

(** C9 (amended): the subtask records generated for an expansion are
    validated by [parseSubtasksFromText]: a record that is not an object
    is skipped, and an object gives a subtask in which a missing (or
    falsy) title is replaced by the placeholder, the status is [pending],
    and the dependencies are the numbers of the [dependencies] array.  The
    result holds the subtasks of the objects and nothing else. *)
Theorem parseSubtasksFromText_validates :
  forall items startId expectedCount,
    (forall r,
        In r (parseSubtasksFromText (Some (JArr items)) startId
                                    expectedCount) <->
        exists i record,
          nth_error items i = Some record /\
          validate (startId + Z.of_nat i) record = Some r) /\
    (forall expectedId record,
        is_object record = false -> validate expectedId record = None) /\
    (forall expectedId record,
        is_object record = true ->
        exists r,
          validate expectedId record = Some r /\
          (truthy (get record "title") = false ->
           s_title r = JStr (String.append "Subtask " (decimal expectedId)))
          /\
          (truthy (get record "title") = true ->
           get record "title" = Some (s_title r)) /\
          s_status r = "pending" /\
          forallb is_number (s_dependencies r) = true /\
          (forall deps, get record "dependencies" = Some (JArr deps) ->
                        s_dependencies r = filter is_number deps)).
Proof.
  intros items startId expectedCount. split; [|split].
  - intros r. rewrite parseSubtasksFromText_array.
    unfold validatedSubtasks. rewrite drop_null_In, map_validate_In.
    split; intros (i & record & Hn & H); exists i, record; split;
      trivial; congruence.
  - intros expectedId record H. unfold validate. now rewrite H.
  - intros expectedId record H. unfold validate. rewrite H. simpl.
    eexists. split; [reflexivity|]. simpl.
    destruct (or_else_truthy (get record "title")
                (JStr (String.append "Subtask " (decimal expectedId))))
      as [Ht Hf].
    repeat split; trivial.
    + destruct (get record "dependencies") as [[]|]; trivial.
      apply forallb_forall. intros d Hd. apply filter_In in Hd. tauto.
    + now intros deps ->.
Qed.

Lemma parseSubtasksFromText_validates_witness :
  exists r,
    validate 4 (nth 0 Samples.generated_subtasks JNull) = Some r /\
    s_title r = JStr "Subtask 4" /\ s_status r = "pending".
Proof.
  destruct (proj2 (proj2 (parseSubtasksFromText_validates
                            Samples.generated_subtasks 4 3))
              4 (nth 0 Samples.generated_subtasks JNull) eq_refl)
    as (r & H1 & H2 & _ & H4 & _).
  exists r. repeat split; trivial. now apply H2.
Defined.

End IngestProperties.

(** * Further properties *)

(** ** Status updates keep the addresses *)

Section StatusInvariants.
Import Status.

Lemma find_update_first n m (f : task -> task) l :
  (forall x, id (f x) = id x) ->
  find (has_id n) (update_first (has_id m) f l) =
  if n =? m then option_map f (find (has_id n) l)
  else find (has_id n) l.
Proof.
  intros Hf. unfold has_id. induction l as [|a l IH]; simpl.
  - now destruct (n =? m).
  - destruct (Z.eqb_spec (id a) m) as [Ea|Ea]; simpl; rewrite ?Hf.
    + destruct (Z.eqb_spec n m) as [E|E].
      * subst n. rewrite Ea, Z.eqb_refl. reflexivity.
      * destruct (Z.eqb_spec (id a) n); [lia | reflexivity].
    + destruct (Z.eqb_spec (id a) n) as [En|En].
      * destruct (Z.eqb_spec n m); [lia | reflexivity].
      * exact IH.
Qed.

Lemma map_update_first {B : Type} (g : task -> B) p f l :
  (forall x, In x l -> p x = true -> g (f x) = g x) ->
  map g (update_first p f l) = map g l.
Proof.
  induction l as [|a l IH]; simpl; intros H; trivial.
  destruct (p a) eqn:E; simpl.
  - f_equal. apply H; auto.
  - f_equal. apply IH. intros x Hx. apply H. now right.
Qed.

Lemma id_force_done s x : id (force_done s x) = id x.
Proof. unfold force_done. now destruct (is_done x). Qed.

Lemma shape_cascade s t : shape (cascade s (set_status t s)) = shape t.
Proof.
  unfold cascade. simpl. destruct (subtasks t) as [[|x subs]|] eqn:E;
    unfold shape; simpl; rewrite ?E; trivial.
  destruct (normalizes_done s); simpl; rewrite ?E; trivial.
  f_equal. f_equal. rewrite id_force_done. f_equal.
  rewrite map_map. apply map_ext. intros. apply id_force_done.
Qed.

Lemma update_keeps_shape taskIdInput newStatus tasks tasks' out :
  updateSingleTaskStatus taskIdInput newStatus tasks = inr (tasks', out) ->
  map shape tasks' = map shape tasks.
Proof.
  unfold updateSingleTaskStatus.
  destruct (JS.includes_char "." taskIdInput).
  - destruct (parentIdOf taskIdInput) as [p|]; simpl; [|discriminate].
    destruct (find (fun t => id t =? p) tasks) as [P|] eqn:HP;
      [|discriminate].
    destruct (subtasks P) as [subs|] eqn:Hs; [|discriminate].
    destruct (subtaskIdOf taskIdInput) as [s|]; simpl; [|discriminate].
    destruct (find (fun t => id t =? s) subs) as [S|] eqn:HS;
      [|discriminate].
    intros H. inversion H; subst. clear H.
    destruct (find_split (has_id p)
                (fun t => set_subtasks t
                   (Some (update_first (has_id s)
                            (fun st => set_status st newStatus) subs)))
                tasks P HP) as (l1 & l2 & Ht & Hu & _).
    rewrite Hu, Ht, !map_app. simpl. f_equal. f_equal.
    unfold shape. simpl. rewrite Hs. simpl. f_equal. f_equal.
    apply map_update_first. reflexivity.
  - destruct (JS.parseInt taskIdInput) as [n|]; simpl; [|discriminate].
    destruct (find (fun t => id t =? n) tasks) as [T|] eqn:HT;
      [|discriminate].
    intros H. inversion H; subst. clear H.
    apply map_update_first. intros x _ _. apply shape_cascade.
Qed.

Lemma find_same_ids n (a b : list task) :
  map id a = map id b ->
  (find (has_id n) a = None <-> find (has_id n) b = None).
Proof.
  revert b. induction a as [|x a IH]; intros [|y b] H; simpl in *;
    try discriminate; [tauto|].
  inversion H as [[Hxy Hab]].
  assert (E : has_id n x = has_id n y) by (unfold has_id; now rewrite Hxy).
  rewrite E. destruct (has_id n y); [split; discriminate | now apply IH].
Qed.

Lemma find_same_shape n (a b : list task) :
  map shape a = map shape b ->
  match find (has_id n) a, find (has_id n) b with
  | Some x, Some y => shape x = shape y
  | None, None => True
  | _, _ => False
  end.
Proof.
  revert b. induction a as [|x a IH]; intros [|y b] H; simpl in *;
    try discriminate; trivial.
  inversion H as [[Hxy Hs Hab]].
  assert (E : has_id n x = has_id n y) by (unfold has_id; now rewrite Hxy).
  rewrite E. destruct (has_id n y).
  - unfold shape. now rewrite Hxy, Hs.
  - now apply IH.
Qed.

Lemma node_at_same_shape (a b : list task) i :
  map shape a = map shape b ->
  (node_at a i = None <-> node_at b i = None).
Proof.
  intros H. unfold node_at. destruct (JS.includes_char "." i).
  - destruct (parentIdOf i) as [p|]; simpl; [|tauto].
    pose proof (find_same_shape p a b H) as Hf.
    change (fun t => id t =? p) with (has_id p).
    destruct (find (has_id p) a) as [x|], (find (has_id p) b) as [y|];
      try tauto.
    unfold shape in Hf. injection Hf as _ Hsub.
    destruct (subtasks x) as [sx|], (subtasks y) as [sy|];
      try discriminate; [|tauto].
    destruct (subtaskIdOf i) as [s|]; simpl; [|tauto].
    apply find_same_ids. simpl in Hsub. congruence.
  - destruct (JS.parseInt i) as [n|]; simpl; [|tauto].
    apply find_same_ids.
    assert (E : map id a = map fst (map shape a))
      by (rewrite map_map; reflexivity).
    assert (E' : map id b = map fst (map shape b))
      by (rewrite map_map; reflexivity).
    congruence.
Qed.

(** X1: a status update changes no id: the ids of the tasks and of their
    subtasks stay as they are, in order, so that an address resolves after
    the update exactly when it did before. *)
Theorem updateSingleTaskStatus_keeps_addresses :
  forall taskIdInput newStatus tasks tasks' out,
    updateSingleTaskStatus taskIdInput newStatus tasks = inr (tasks', out) ->
    map shape tasks' = map shape tasks /\
    List.length tasks' = List.length tasks /\
    forall address,
      node_at tasks' address = None <-> node_at tasks address = None.
Proof.
  intros taskIdInput newStatus tasks tasks' out H.
  apply update_keeps_shape in H. split; trivial. split.
  - rewrite <- (length_map shape tasks'), H. apply length_map.
  - intros address. now apply node_at_same_shape.
Qed.

Lemma updateSingleTaskStatus_keeps_addresses_witness :
  map shape (fst (match updateSingleTaskStatus "1" "done"
                        Samples.two_tasks with
                  | inr r => r
                  | inl _ => ([], [])
                  end))
  = map shape Samples.two_tasks.
Proof.
  apply (updateSingleTaskStatus_keeps_addresses
           "1" "done" Samples.two_tasks _ []).
  reflexivity.
Defined.

Lemma update_each_succeeds_iff ids newStatus :
  forall tasks out,
    (exists r, update_each ids newStatus tasks out = inr r) <->
    (forall i, In i ids -> node_at tasks i <> None).
Proof.
  induction ids as [|i ids IH]; intros tasks out; simpl.
  - split; [intros _ j [] | eauto].
  - pose proof (update_fails_iff_unresolved i newStatus tasks) as Hfail.
    destruct (updateSingleTaskStatus i newStatus tasks)
      as [e|[tasks1 o]] eqn:U.
    + split; [intros [r Hr]; discriminate|].
      intros H. exfalso. apply (H i); [now left|]. apply Hfail. eauto.
    + pose proof (update_keeps_shape _ _ _ _ _ U) as Hs.
      rewrite IH. split.
      * intros H j [<-|Hj].
        -- intros Hn. apply Hfail in Hn. destruct Hn. discriminate.
        -- intros Hn. apply (H j Hj).
           now apply (node_at_same_shape tasks1 tasks j Hs).
      * intros H j Hj Hn. apply (H j); [now right|].
        now apply (node_at_same_shape tasks1 tasks j Hs).
Qed.

(** X2: a batch of status updates is carried out and written exactly when
    every address of the batch resolves in the document as it was read. *)
Theorem setTaskStatus_succeeds_iff_all_resolve :
  forall tasks taskIdInput newStatus,
    (exists tasks' out,
        setTaskStatus (Some tasks) taskIdInput newStatus
          = (Some tasks', inr (taskIds taskIdInput, out)) /\
        map shape tasks' = map shape tasks)
    <->
    (forall i, In i (taskIds taskIdInput) -> node_at tasks i <> None).
Proof.
  intros tasks taskIdInput newStatus.
  rewrite <- (update_each_succeeds_iff (taskIds taskIdInput) newStatus
                tasks []).
  unfold setTaskStatus. split.
  - intros (tasks' & out & H & _).
    destruct (update_each (taskIds taskIdInput) newStatus tasks [])
      as [e|[t o]]; [discriminate | eauto].
  - intros [[t o] Hr]. rewrite Hr. exists t, o. split; trivial.
    clear - Hr. revert tasks Hr. generalize (@nil event).
    induction (taskIds taskIdInput) as [|i ids IH]; simpl;
      intros out0 tasks Hr.
    + now inversion Hr.
    + destruct (updateSingleTaskStatus i newStatus tasks)
        as [e|[t1 o1]] eqn:U; [discriminate|].
      rewrite (IH _ _ Hr). eapply update_keeps_shape; eauto.
Qed.

Lemma setTaskStatus_succeeds_iff_all_resolve_witness :
  exists tasks' out,
    setTaskStatus (Some Samples.two_tasks) "1.1, 2" "done"
      = (Some tasks', inr (["1.1"; "2"], out)) /\
    map shape tasks' = map shape Samples.two_tasks.
Proof.
  apply (proj2 (setTaskStatus_succeeds_iff_all_resolve
                  Samples.two_tasks "1.1, 2" "done")).
  intros i [<-|[<-|[]]]; discriminate.
Defined.

Lemma force_done_twice s x :
  force_done s (force_done s x) = force_done s x.
Proof.
  unfold force_done. destruct (is_done x) eqn:E.
  - now rewrite E.
  - destruct (is_done (set_status x s)); reflexivity.
Qed.

Lemma cascade_twice s t :
  cascade s (set_status (cascade s (set_status t s)) s)
  = cascade s (set_status t s).
Proof.
  unfold cascade. simpl.
  destruct (subtasks t) as [[|x subs]|] eqn:E; simpl; rewrite ?E; trivial.
  destruct (normalizes_done s) eqn:N; simpl; rewrite ?E, ?N; trivial.
  unfold set_subtasks, set_status. simpl. f_equal. f_equal.
  rewrite force_done_twice. f_equal.
  rewrite map_map. apply map_ext. intros. apply force_done_twice.
Qed.

(** X3: setting a status a second time changes nothing: the update of an
    address with the status it was just given returns the same document and
    the same output. *)
Theorem updateSingleTaskStatus_idempotent :
  forall taskIdInput newStatus tasks tasks' out,
    updateSingleTaskStatus taskIdInput newStatus tasks = inr (tasks', out) ->
    updateSingleTaskStatus taskIdInput newStatus tasks' = inr (tasks', out).
Proof.
  intros taskIdInput newStatus tasks tasks' out.
  unfold updateSingleTaskStatus.
  destruct (JS.includes_char "." taskIdInput).
  - destruct (parentIdOf taskIdInput) as [p|]; simpl; [|discriminate].
    destruct (find (fun t => id t =? p) tasks) as [P|] eqn:HP;
      [|discriminate].
    destruct (subtasks P) as [subs|] eqn:Hs; [|discriminate].
    destruct (subtaskIdOf taskIdInput) as [s|]; simpl; [|discriminate].
    destruct (find (fun t => id t =? s) subs) as [S|] eqn:HS;
      [|discriminate].
    set (g := fun st => set_status st newStatus).
    set (subs' := update_first (has_id s) g subs).
    intros H. inversion H; subst tasks' out. clear H.
    destruct (find_split (has_id p)
                (fun t => set_subtasks t (Some subs')) tasks P HP)
      as (l1 & l2 & Ht & Hu & Hl1).
    destruct (find_split (has_id s) g subs S HS)
      as (m1 & m2 & Hm & Hmu & Hm1).
    assert (HidP : has_id p P = true) by (apply find_some in HP; tauto).
    assert (HidS : has_id s S = true) by (apply find_some in HS; tauto).
    fold subs' in Hmu. rewrite Hu.
    change (fun t => id t =? p) with (has_id p).
    rewrite (find_middle (has_id p) l1 _ l2 Hl1) by exact HidP.
    simpl. change (fun t => id t =? s) with (has_id s).
    rewrite Hmu at 1.
    rewrite (find_middle (has_id s) m1 _ m2 Hm1) by exact HidS.
    assert (Hsubs : update_first (has_id s) g subs' = subs').
    { rewrite Hmu. rewrite update_first_middle; trivial. }
    rewrite Hsubs. rewrite update_first_middle; trivial.
  - destruct (JS.parseInt taskIdInput) as [n|]; simpl; [|discriminate].
    destruct (find (fun t => id t =? n) tasks) as [T|] eqn:HT;
      [|discriminate].
    set (f := fun t => cascade newStatus (set_status t newStatus)).
    intros H. inversion H; subst tasks' out. clear H.
    destruct (find_split (has_id n) f tasks T HT)
      as (l1 & l2 & Ht & Hu & Hl1).
    assert (HidT : has_id n (f T) = true).
    { apply find_some in HT. destruct HT as [_ HT].
      unfold has_id. pose proof (shape_cascade newStatus T) as Hsh.
      unfold shape in Hsh. injection Hsh as Hid _. unfold f.
      now rewrite Hid. }
    rewrite Hu. change (fun t => id t =? n) with (has_id n).
    rewrite (find_middle (has_id n) l1 _ l2 Hl1) by exact HidT.
    rewrite update_first_middle; trivial.
    unfold f at 1. unfold f at 1. now rewrite cascade_twice.
Qed.

Lemma updateSingleTaskStatus_idempotent_witness :
  exists tasks' out,
    updateSingleTaskStatus "1" "done" Samples.two_tasks = inr (tasks', out)
    /\ updateSingleTaskStatus "1" "done" tasks' = inr (tasks', out).
Proof.
  eexists _, _. split; [reflexivity|].
  apply (updateSingleTaskStatus_idempotent "1" "done" Samples.two_tasks).
  reflexivity.
Defined.

Lemma completed_after_done n newStatus tasks d :
  newStatus = "done" \/ newStatus = "completed" ->
  Selector.completed tasks d = true ->
  Selector.completed
    (update_first (has_id n)
       (fun t => cascade newStatus (set_status t newStatus)) tasks) d
  = true.
Proof.
  intros Hst H. apply completed_iff in H. apply completed_iff.
  destruct H as (u & Hin & Hid & Hd).
  set (f := fun t => cascade newStatus (set_status t newStatus)).
  assert (Hf : forall t, id (f t) = id t /\ is_done (f t) = true).
  { intros t. pose proof (shape_cascade newStatus t) as Hsh.
    unfold shape in Hsh. injection Hsh as Hi _. split; trivial.
    unfold f, cascade, is_done. simpl.
    destruct (subtasks t) as [[|? ?]|]; simpl;
      try destruct (normalizes_done newStatus); simpl;
      destruct Hst as [-> | ->]; reflexivity. }
  induction tasks as [|a l IH]; [destruct Hin|]. simpl.
  destruct (has_id n a) eqn:E.
  - destruct Hin as [<-|Hin].
    + exists (f a). split; [now left|]. destruct (Hf a). split; congruence.
    + exists u. split; [now right | now split].
  - destruct Hin as [<-|Hin].
    + exists a. split; [now left | now split].
    + destruct (IH Hin) as (v & ? & ? & ?). exists v.
      split; [now right | now split].
Qed.

(** X4: completing a task never blocks another: a task that was eligible
    for [findNextTask] before a task of another id was marked done or
    completed is still in the document, unchanged, and still eligible
    afterwards. *)
Theorem completing_a_task_keeps_others_eligible :
  forall taskIdInput newStatus tasks tasks' out n c,
    newStatus = "done" \/ newStatus = "completed" ->
    JS.includes_char "." taskIdInput = false ->
    JS.parseInt taskIdInput = Some n ->
    updateSingleTaskStatus taskIdInput newStatus tasks = inr (tasks', out) ->
    In c tasks -> id c <> n ->
    Selector.eligible tasks c = true ->
    In c tasks' /\ Selector.eligible tasks' c = true.
Proof.
  intros taskIdInput newStatus tasks tasks' out n c Hst Hdot Hn Hu
         Hc Hid Hel.
  unfold updateSingleTaskStatus in Hu. rewrite Hdot, Hn in Hu. simpl in Hu.
  destruct (find (fun t => id t =? n) tasks) as [T|] eqn:HT;
    [|discriminate].
  inversion Hu; subst tasks' out. clear Hu. split.
  - clear - Hc Hid. induction tasks as [|a l IH]; [destruct Hc|]. simpl.
    destruct (has_id n a) eqn:E.
    + destruct Hc as [<-|Hc]; [|now right].
      unfold has_id in E. apply Z.eqb_eq in E. contradiction.
    + destruct Hc as [<-|Hc]; [now left | right; auto].
  - unfold Selector.eligible in *. apply andb_true_iff in Hel.
    destruct Hel as [Ho Hd]. rewrite Ho. simpl.
    destruct (dependencies c) as [deps|]; [|discriminate].
    rewrite forallb_forall in Hd. apply forallb_forall. intros d Hdin.
    apply completed_after_done; auto.
Qed.

Lemma completing_a_task_keeps_others_eligible_witness :
  Selector.eligible
    (fst (match updateSingleTaskStatus "2" "done" Samples.next_scenario with
          | inr r => r
          | inl _ => ([], [])
          end))
    (Samples.plain 3 "pending" (Some "low") (Some [1])) = true.
Proof.
  apply (completing_a_task_keeps_others_eligible
           "2" "done" Samples.next_scenario _ [] 2
           (Samples.plain 3 "pending" (Some "low") (Some [1]))
           (or_introl eq_refl) eq_refl eq_refl eq_refl).
  - right. right. now left.
  - discriminate.
  - reflexivity.
Defined.

End StatusInvariants.

(** ** [clearSubtasks] *)

Section ClearProperties.
Import Clear.

Lemma clear_one_cases i tasks :
  (fst (clear_one i tasks) = tasks /\
   is_cleared (snd (clear_one i tasks)) = false /\
   forall n, JS.parseInt i = Some n -> no_subtasks_at tasks n) \/
  (exists n t x subs,
      JS.parseInt i = Some n /\
      find_by_id tasks (Some n) = Some t /\
      subtasks t = Some (x :: subs) /\
      clear_one i tasks =
        (update_first (has_id n) (fun t => set_subtasks t (Some [])) tasks,
         Cleared n (S (List.length subs)))).
Proof.
  unfold clear_one, no_subtasks_at.
  destruct (JS.parseInt i) as [n|]; [|left; repeat split; discriminate].
  destruct (find_by_id tasks (Some n)) as [t|] eqn:F.
  - destruct (subtasks t) as [[|x subs]|] eqn:E.
    + left. repeat split. intros m [= <-]. rewrite F.
      unfold Editor.subtask_list. now rewrite E.
    + right. exists n, t, x, subs. repeat split; trivial.
    + left. repeat split. intros m [= <-]. rewrite F.
      unfold Editor.subtask_list. now rewrite E.
  - left. repeat split. intros m [= <-]. now rewrite F.
Qed.

Lemma clear_one_keeps i tasks :
  map (fun t => set_subtasks t None) (fst (clear_one i tasks))
  = map (fun t => set_subtasks t None) tasks /\
  (forall m, no_subtasks_at tasks m ->
             no_subtasks_at (fst (clear_one i tasks)) m) /\
  (forall n, JS.parseInt i = Some n ->
             no_subtasks_at (fst (clear_one i tasks)) n).
Proof.
  destruct (clear_one_cases i tasks)
    as [(E & _ & H)|(n & t & x & subs & Hn & Hf & Hs & E)].
  - rewrite E. repeat split; auto.
  - rewrite E. simpl. split; [|split].
    + apply map_update_first. reflexivity.
    + intros m Hm. unfold no_subtasks_at in *. simpl in *.
      change (fun t => id t =? m) with (has_id m) in *.
      rewrite find_update_first by reflexivity.
      destruct (m =? n); trivial.
      now destruct (find (has_id m) tasks).
    + intros m Hm. rewrite Hn in Hm. injection Hm as <-.
      unfold no_subtasks_at. simpl.
      change (fun t => id t =? n) with (has_id n).
      rewrite find_update_first by reflexivity. rewrite Z.eqb_refl.
      now destruct (find (has_id n) tasks).
Qed.

Lemma clear_each_cons i ids tasks :
  clear_each (i :: ids) tasks =
  (fst (clear_each ids (fst (clear_one i tasks))),
   snd (clear_one i tasks) :: snd (clear_each ids (fst (clear_one i tasks)))).
Proof.
  simpl. destruct (clear_one i tasks) as [t1 n]. simpl.
  now destruct (clear_each ids t1).
Qed.

Lemma clear_each_keeps ids : forall tasks,
  map (fun t => set_subtasks t None) (fst (clear_each ids tasks))
  = map (fun t => set_subtasks t None) tasks /\
  (forall m, no_subtasks_at tasks m ->
             no_subtasks_at (fst (clear_each ids tasks)) m) /\
  (forall i n, In i ids -> JS.parseInt i = Some n ->
               no_subtasks_at (fst (clear_each ids tasks)) n) /\
  List.length (snd (clear_each ids tasks)) = List.length ids.
Proof.
  induction ids as [|i ids IH]; intros tasks.
  - simpl. repeat split; trivial. intros i n [].
  - rewrite clear_each_cons. simpl.
    destruct (clear_one_keeps i tasks) as (K1 & K2 & K3).
    destruct (IH (fst (clear_one i tasks))) as (I1 & I2 & I3 & I4).
    split; [congruence|]. split; [auto|]. split; [|now rewrite I4].
    intros j n [<-|Hj] Hn; eauto.
Qed.

Lemma clear_each_uncleared ids : forall tasks,
  clearedCount (snd (clear_each ids tasks)) = O ->
  fst (clear_each ids tasks) = tasks.
Proof.
  induction ids as [|i ids IH]; intros tasks C; trivial.
  rewrite clear_each_cons in *. simpl in *.
  unfold clearedCount in C. simpl in C.
  destruct (clear_one_cases i tasks)
    as [(E1 & N1 & _)|(n & t & x & subs & _ & _ & _ & E1)].
  - rewrite N1 in C. rewrite E1 in *. now apply IH.
  - rewrite E1 in C. simpl in C. discriminate.
Qed.

Lemma clearSubtasks_result tasks taskIds :
  clearSubtasks (Some tasks) taskIds =
  (Some (fst (clear_each (Status.taskIds taskIds) tasks)),
   inr ((0 <? clearedCount
                (snd (clear_each (Status.taskIds taskIds) tasks)))%nat,
        snd (clear_each (Status.taskIds taskIds) tasks))).
Proof.
  unfold clearSubtasks.
  pose proof (clear_each_uncleared (Status.taskIds taskIds) tasks) as U.
  destruct (clear_each (Status.taskIds taskIds) tasks) as [t ns].
  simpl in *. destruct (clearedCount ns); simpl; trivial.
  now rewrite U.
Qed.

(** X5: [clearSubtasks] goes on past the ids it cannot use: one note is
    logged for each id of the batch, and after the batch the task of every
    id that parses has no subtasks, whatever the other ids were.  Nothing
    but the [subtasks] fields changes. *)
Theorem clearSubtasks_clears_every_valid_id :
  forall tasks taskIds,
    exists tasks' written notes,
      clearSubtasks (Some tasks) taskIds
        = (Some tasks', inr (written, notes)) /\
      List.length notes = List.length (Status.taskIds taskIds) /\
      map (fun t => set_subtasks t None) tasks'
        = map (fun t => set_subtasks t None) tasks /\
      forall i n,
        In i (Status.taskIds taskIds) -> JS.parseInt i = Some n ->
        no_subtasks_at tasks' n.
Proof.
  intros tasks taskIds. rewrite clearSubtasks_result.
  destruct (clear_each_keeps (Status.taskIds taskIds) tasks)
    as (K1 & _ & K3 & K4).
  eexists _, _, _. split; [reflexivity|]. repeat split; trivial.
Qed.

Lemma clearSubtasks_clears_every_valid_id_witness :
  exists tasks' written notes,
    clearSubtasks (Some Samples.project) "x, 9,2" 
      = (Some tasks', inr (written, notes)) /\
    List.length notes = 3%nat /\
    no_subtasks_at tasks' 2.
Proof.
  destruct (clearSubtasks_clears_every_valid_id Samples.project "x, 9,2")
    as (tasks' & written & notes & H1 & H2 & _ & H4).
  exists tasks', written, notes. repeat split; trivial.
  apply (H4 "2"); [right; right; now left | reflexivity].
Defined.

Lemma clear_each_nothing ids : forall tasks,
  (forall i n, In i ids -> JS.parseInt i = Some n ->
               no_subtasks_at tasks n) ->
  fst (clear_each ids tasks) = tasks /\
  clearedCount (snd (clear_each ids tasks)) = O.
Proof.
  induction ids as [|i ids IH]; intros tasks H; [now split|].
  rewrite clear_each_cons. simpl.
  destruct (clear_one_cases i tasks)
    as [(E1 & N1 & _)|(n & t & x & subs & Hn & Hf & Hs & _)].
  - rewrite E1. unfold clearedCount. simpl. rewrite N1.
    apply IH. intros j m Hj. apply H. now right.
  - exfalso. specialize (H i n (or_introl eq_refl) Hn).
    unfold no_subtasks_at in H. rewrite Hf in H.
    unfold Editor.subtask_list in H. rewrite Hs in H. discriminate.
Qed.

(** X6: [clearSubtasks] writes the document only when it cleared
    something: when no id of the batch names a task with subtasks (an
    empty batch, ids that are not numbers or name no task, tasks without
    subtasks) the document is left unwritten, as it is after a first
    clearing of the same ids. *)
Theorem clearSubtasks_writes_only_what_it_cleared :
  forall tasks taskIds,
    ((forall i n, In i (Status.taskIds taskIds) -> JS.parseInt i = Some n ->
                  no_subtasks_at tasks n) ->
     exists notes,
       clearSubtasks (Some tasks) taskIds = (Some tasks, inr (false, notes)))
    /\
    (forall tasks' r,
        clearSubtasks (Some tasks) taskIds = (Some tasks', inr r) ->
        exists notes,
          clearSubtasks (Some tasks') taskIds
            = (Some tasks', inr (false, notes))).
Proof.
  intros tasks taskIds.
  assert (Hnone : forall tasks0,
    (forall i n, In i (Status.taskIds taskIds) -> JS.parseInt i = Some n ->
                 no_subtasks_at tasks0 n) ->
    exists notes,
      clearSubtasks (Some tasks0) taskIds
        = (Some tasks0, inr (false, notes))).
  { intros tasks0 H. unfold clearSubtasks.
    destruct (clear_each_nothing (Status.taskIds taskIds) tasks0 H)
      as [E C].
    destruct (clear_each (Status.taskIds taskIds) tasks0) as [t ns].
    simpl in *. rewrite C. simpl. eauto. }
  split; [apply Hnone|].
  intros tasks' r H. apply Hnone.
  rewrite clearSubtasks_result in H. inversion H; subst.
  apply (clear_each_keeps (Status.taskIds taskIds) tasks).
Qed.

Lemma clearSubtasks_writes_only_what_it_cleared_witness :
  exists notes,
    clearSubtasks (Some Samples.project) "1,7,," 
      = (Some Samples.project, inr (false, notes)).
Proof.
  apply (proj1 (clearSubtasks_writes_only_what_it_cleared
                  Samples.project "1,7,,")).
  intros i n [<-|[<-|[<-|[<-|[]]]]]; intros [= <-]; reflexivity.
Defined.

End ClearProperties.

(** ** The statistics of [listTasks] *)

Section ListingProperties.
Import Listing.

Lemma count_split (p q : task -> bool) l :
  (forall t, In t l -> p t = true -> q t = false) ->
  (List.length (filter p l) + List.length (filter q l)
   = List.length (filter (fun t => p t || q t) l))%nat.
Proof.
  induction l as [|a l IH]; intros H; trivial. simpl.
  assert (IH' : (List.length (filter p l) + List.length (filter q l)
                 = List.length (filter (fun t => p t || q t) l))%nat).
  { apply IH. intros t Ht. apply H. now right. }
  specialize (H a (or_introl eq_refl)).
  destruct (p a) eqn:P; simpl.
  - rewrite H by trivial. simpl. lia.
  - destruct (q a); simpl; lia.
Qed.

Lemma count_le (p q : task -> bool) l :
  (forall t, In t l -> p t = true -> q t = true) ->
  (List.length (filter p l) <= List.length (filter q l))%nat.
Proof.
  induction l as [|a l IH]; intros H; trivial. simpl.
  assert (IH' : (List.length (filter p l) <= List.length (filter q l))%nat).
  { apply IH. intros t Ht. apply H. now right. }
  specialize (H a (or_introl eq_refl)).
  destruct (p a); simpl.
  - rewrite H by trivial. simpl. lia.
  - destruct (q a); simpl; lia.
Qed.

Lemma count_all (p : task -> bool) l :
  (forall t, In t l -> p t = true) ->
  List.length (filter p l) = List.length l.
Proof.
  induction l as [|a l IH]; intros H; trivial. simpl.
  rewrite (H a) by now left. simpl. f_equal. apply IH.
  intros t Ht. apply H. now right.
Qed.

(** X7: the dependency metrics of the dashboard count every task once: a
    task is done, or has no dependencies, or has all of them satisfied, or
    is blocked by one, so that the four counts add up to the number of
    tasks; and the counts by status never exceed it. *)
Theorem listTasks_counts_partition :
  forall tasks,
    (completedTasks tasks + tasksReadyToWork tasks
     + tasksWithUnsatisfiedDeps tasks = totalTasks tasks)%nat /\
    (completedTasks tasks + inProgressCount tasks + pendingCount tasks
     + blockedCount tasks + deferredCount tasks <= totalTasks tasks)%nat.
Proof.
  intros tasks. split.
  - unfold completedTasks, tasksReadyToWork, tasksWithNoDeps,
      tasksWithAllDepsSatisfied, tasksWithUnsatisfiedDeps, totalTasks.
    rewrite Nat.add_assoc.
    rewrite (count_split is_done);
      [|intros t _ H; now rewrite H].
    rewrite (count_split (fun t => is_done t
                                   || negb (is_done t) && no_deps t));
      [|intros t _ H;
        destruct (is_done t), (no_deps t); simpl in *; congruence].
    rewrite count_split;
      [|intros t _ H;
        destruct (is_done t), (no_deps t), (all_deps_done tasks t);
        simpl in *; congruence].
    apply count_all. intros t _.
    destruct (is_done t), (no_deps t), (all_deps_done tasks t); reflexivity.
  - unfold completedTasks, inProgressCount, pendingCount, blockedCount,
      deferredCount, totalTasks.
    assert (D : forall t s, s <> "done" -> s <> "completed" ->
                has_status s t = true -> is_done t = false).
    { intros t s H1 H2. unfold has_status, is_done.
      destruct (status t) as [x|]; [|discriminate].
      intros E. apply String.eqb_eq in E. subst x.
      apply orb_false_iff. split; now apply String.eqb_neq. }
    assert (X : forall t s s', s <> s' ->
                has_status s t = true -> has_status s' t = false).
    { intros t s s' Hne. unfold has_status.
      destruct (status t) as [x|]; [|discriminate].
      intros E. apply String.eqb_eq in E. subst x.
      now apply String.eqb_neq. }
    rewrite (count_split is_done (has_status "in-progress")).
    2:{ intros t _ H.
        destruct (has_status "in-progress" t) eqn:E; trivial.
        apply D in E; [congruence | discriminate | discriminate]. }
    rewrite count_split.
    2:{ intros t _ H. destruct (has_status "pending" t) eqn:E; trivial.
        apply orb_true_iff in H. destruct H as [H|H].
        - apply D in E; [congruence | discriminate | discriminate].
        - apply (X t _ "pending") in H; [congruence | discriminate]. }
    rewrite count_split.
    2:{ intros t _ H. destruct (has_status "blocked" t) eqn:E; trivial.
        rewrite !orb_true_iff in H. destruct H as [[H|H]|H].
        - apply D in E; [congruence | discriminate | discriminate].
        - apply (X t _ "blocked") in H; [congruence | discriminate].
        - apply (X t _ "blocked") in H; [congruence | discriminate]. }
    rewrite count_split.
    2:{ intros t _ H. destruct (has_status "deferred" t) eqn:E; trivial.
        rewrite !orb_true_iff in H. destruct H as [[[H|H]|H]|H].
        - apply D in E; [congruence | discriminate | discriminate].
        - apply (X t _ "deferred") in H; [congruence | discriminate].
        - apply (X t _ "deferred") in H; [congruence | discriminate].
        - apply (X t _ "deferred") in H; [congruence | discriminate]. }
    apply filter_length_le.
Qed.

(** X8: every task that [findNextTask] can return is counted among the
    tasks ready to work on: the number of eligible tasks is at most that
    count, so when a next task is shown the count is not zero. *)
Theorem listTasks_ready_covers_next :
  forall tasks,
    (List.length (filter (Selector.eligible tasks) tasks)
     <= tasksReadyToWork tasks)%nat /\
    (forall t, Selector.findNextTask tasks = Some t ->
               (1 <= tasksReadyToWork tasks)%nat).
Proof.
  intros tasks.
  assert (H : (List.length (filter (Selector.eligible tasks) tasks)
               <= tasksReadyToWork tasks)%nat).
  { unfold tasksReadyToWork, tasksWithNoDeps, tasksWithAllDepsSatisfied.
    rewrite count_split;
      [|intros t _ E; destruct (is_done t), (no_deps t); simpl in *;
        congruence].
    apply count_le. intros t _ E. unfold Selector.eligible in E.
    apply andb_true_iff in E. destruct E as [Ho Hd].
    assert (Hnd : is_done t = false).
    { unfold Selector.is_open in Ho. unfold is_done.
      destruct (status t) as [x|]; [|reflexivity].
      apply orb_true_iff in Ho.
      destruct Ho as [Ho|Ho]; apply String.eqb_eq in Ho; subst x;
        reflexivity. }
    rewrite Hnd. unfold no_deps, all_deps_done.
    destruct (dependencies t) as [[|d deps]|]; simpl; trivial. }
  split; trivial. intros t Ht.
  apply findNextTask_Some in Ht. destruct Ht as (Hin & He & _).
  assert (In t (filter (Selector.eligible tasks) tasks))
    by (apply filter_In; now split).
  destruct (filter (Selector.eligible tasks) tasks); [contradiction|].
  simpl in H. lia.
Qed.

Lemma listTasks_ready_covers_next_witness :
  (1 <= tasksReadyToWork Samples.next_scenario)%nat.
Proof.
  apply (proj2 (listTasks_ready_covers_next Samples.next_scenario)
               (Samples.plain 2 "pending" (Some "high") (Some [1]))).
  reflexivity.
Defined.

End ListingProperties.

(** ** [updateTasks] *)

Section UpdateProperties.
Import Update.

Lemma replace_task_spec tasks u :
  map id (replace_task tasks u) = map id tasks /\
  (forall t, In t tasks -> id t <> id u -> In t (replace_task tasks u)) /\
  (forall t, In t (replace_task tasks u) -> In t tasks \/ t = u).
Proof.
  unfold replace_task. induction tasks as [|a l (I1 & I2 & I3)]; simpl.
  - repeat split; tauto.
  - destruct (has_id (id u) a) eqn:E; simpl.
    + unfold has_id in E. apply Z.eqb_eq in E. split; [now rewrite E|].
      split.
      * intros t [<-|Ht] Hne; [congruence | now right].
      * intros t [<-|Ht]; auto.
    + split; [now rewrite I1|]. split.
      * intros t [<-|Ht] Hne; [now left | right; auto].
      * intros t [<-|Ht]; auto. destruct (I3 t Ht); auto.
Qed.

Lemma fold_replace_spec updated : forall tasks,
  map id (fold_left replace_task updated tasks) = map id tasks /\
  (forall t, In t tasks -> ~ In (id t) (map id updated) ->
             In t (fold_left replace_task updated tasks)) /\
  (forall t, In t (fold_left replace_task updated tasks) ->
             In t tasks \/ In t updated).
Proof.
  induction updated as [|u updated IH]; intros tasks; simpl.
  - repeat split; tauto.
  - destruct (replace_task_spec tasks u) as (R1 & R2 & R3).
    destruct (IH (replace_task tasks u)) as (I1 & I2 & I3).
    split; [congruence|]. split.
    + intros t Ht Hn. apply I2; [apply R2; auto|]; tauto.
    + intros t Ht. destruct (I3 t Ht) as [H|H]; [|tauto].
      destruct (R3 t H); subst; tauto.
Qed.

(** One callback of [forEach], position by position: the task at [i] is
    replaced by the returned task when it has its id and no task before
    it has. *)
Lemma replace_task_nth u : forall l i t,
  nth_error l i = Some t ->
  nth_error (replace_task l u) i =
    Some (match find (has_id (id u)) (firstn i l) with
          | None => if has_id (id u) t then u else t
          | Some _ => t
          end).
Proof.
  unfold replace_task. induction l as [|a l IH]; intros [|i] t H;
    simpl in H; try discriminate.
  - injection H as ->. simpl. now destruct (has_id (id u) t).
  - simpl. destruct (has_id (id u) a) eqn:E; simpl; trivial.
    now apply IH.
Qed.

Lemma find_app (q : task -> bool) l l' :
  find q (l ++ l') =
  match find q l with
  | Some x => Some x
  | None => find q l'
  end.
Proof.
  induction l as [|a l IH]; simpl; trivial. now destruct (q a).
Qed.

(** The whole [forEach], position by position: the first task of an id
    ends as the last returned task of that id, when there is one; every
    other task is left as it is. *)
Lemma fold_replace_nth updated : forall tasks i t,
  nth_error tasks i = Some t ->
  nth_error (fold_left replace_task updated tasks) i =
    Some (match find (has_id (id t)) (firstn i tasks),
                find (has_id (id t)) (rev updated) with
          | None, Some u => u
          | _, _ => t
          end).
Proof.
  induction updated as [|u updated IH]; intros tasks i t H; simpl.
  - rewrite H. now destruct (find _ (firstn i tasks)).
  - pose proof (replace_task_nth u tasks i t H) as Hstep.
    destruct (replace_task_spec tasks u) as (Hids & _ & _).
    assert (Hfirst : forall k,
               find (has_id k) (firstn i (replace_task tasks u)) = None <->
               find (has_id k) (firstn i tasks) = None).
    { intros k. apply find_same_ids.
      now rewrite <- !firstn_map, Hids. }
    rewrite find_app. cbn [find].
    assert (Eu : has_id (id t) u = (id u =? id t)) by reflexivity.
    assert (Et : has_id (id u) t = (id t =? id u)) by reflexivity.
    rewrite Eu. rewrite Et in Hstep. clear Eu Et.
    destruct (find (has_id (id t)) (firstn i tasks)) as [x|] eqn:Ft.
    + (* not the first task of its id *)
      assert (Ht1 : nth_error (replace_task tasks u) i = Some t).
      { rewrite Hstep.
        destruct (Z.eqb_spec (id t) (id u)) as [Heq|Hne].
        - rewrite <- Heq, Ft. reflexivity.
        - now destruct (find (has_id (id u)) (firstn i tasks)). }
      rewrite (IH _ _ _ Ht1).
      destruct (find (has_id (id t)) (firstn i (replace_task tasks u)))
        eqn:F1; trivial.
      apply Hfirst in F1. congruence.
    + (* the first task of its id *)
      destruct (Z.eqb_spec (id t) (id u)) as [Heq|Hne].
      * rewrite <- Heq, Ft in Hstep. rewrite (IH _ _ _ Hstep).
        rewrite <- Heq.
        rewrite (proj2 (Hfirst (id t)) Ft).
        rewrite Z.eqb_refl.
        now destruct (find (has_id (id t)) (rev updated)).
      * assert (Ht1 : nth_error (replace_task tasks u) i = Some t).
        { rewrite Hstep.
          now destruct (find (has_id (id u)) (firstn i tasks)). }
        rewrite (IH _ _ _ Ht1), (proj2 (Hfirst (id t)) Ft).
        assert (Hu : (id u =? id t) = false) by (apply Z.eqb_neq; lia).
        rewrite Hu.
        now destruct (find (has_id (id t)) (rev updated)).
Qed.

(** X9: [updateTasks] keeps the ids of the document, in order, and
    replaces position by position: the first task of an id is replaced by
    the last returned task of that id, when there is one; every other
    task is left where it is, as it is, and a returned task of an unknown
    id is dropped, so that no task is added or removed.  When no task has
    an id from [fromId] on and a status other than [done], the service is
    not called and nothing is written. *)
Theorem updateTasks_keeps_ids :
  forall tasks fromId updatedTasks,
    (forall updated,
        tasksToUpdate fromId tasks <> [] ->
        updatedTasks (tasksToUpdate fromId tasks) = Some updated ->
        exists tasks',
          updateTasks (Some tasks) fromId updatedTasks
            = (Some tasks', inr (Some (List.length updated))) /\
          map id tasks' = map id tasks /\
          (forall i t,
              nth_error tasks i = Some t ->
              nth_error tasks' i =
                Some (match find (has_id (id t)) (firstn i tasks),
                            find (has_id (id t)) (rev updated) with
                      | None, Some u => u
                      | _, _ => t
                      end)) /\
          (forall t, In t tasks -> ~ In (id t) (map id updated) ->
                     In t tasks') /\
          (forall t, In t tasks' -> In t tasks \/ In t updated)) /\
    ((forall t, In t tasks -> id t < fromId \/ status t = Some "done") ->
     updateTasks (Some tasks) fromId updatedTasks = (Some tasks, inr None)).
Proof.
  intros tasks fromId updatedTasks. split.
  - intros updated Hne Hu. unfold updateTasks.
    destruct (tasksToUpdate fromId tasks) as [|x l] eqn:E; [congruence|].
    rewrite Hu. eexists. split; [reflexivity|].
    destruct (fold_replace_spec updated tasks) as (H1 & H2 & H3).
    repeat split; trivial. apply fold_replace_nth.
  - intros H. unfold updateTasks.
    assert (E : tasksToUpdate fromId tasks = []).
    { unfold tasksToUpdate.
      destruct (filter _ tasks) as [|x l] eqn:F; trivial. exfalso.
      assert (Hx : In x (x :: l)) by now left.
      rewrite <- F in Hx. apply filter_In in Hx. destruct Hx as [Hin Hx].
      apply andb_true_iff in Hx. destruct Hx as [H1 H2].
      destruct (H x Hin) as [Hlt|Hd].
      - apply Z.leb_le in H1. lia.
      - unfold Listing.has_status in H2. rewrite Hd in H2. discriminate. }
    now rewrite E.
Qed.

Lemma updateTasks_keeps_ids_witness :
  exists tasks',
    updateTasks (Some Samples.project) 2
                (fun _ => Some [Samples.plain 5 "pending" None None;
                                Samples.plain 8 "pending" None None])
      = (Some tasks', inr (Some 2%nat)) /\
    map id tasks' = [1; 2; 5] /\
    nth_error tasks' 0 = nth_error Samples.project 0 /\
    nth_error tasks' 1 = nth_error Samples.project 1 /\
    nth_error tasks' 2 = Some (Samples.plain 5 "pending" None None).
Proof.
  destruct (proj1 (updateTasks_keeps_ids
                     Samples.project 2
                     (fun _ => Some [Samples.plain 5 "pending" None None;
                                     Samples.plain 8 "pending" None None]))
              [Samples.plain 5 "pending" None None;
               Samples.plain 8 "pending" None None])
    as (tasks' & H1 & H2 & H3 & _).
  - discriminate.
  - reflexivity.
  - exists tasks'. split; trivial. split; trivial.
    split; [|split].
    + exact (H3 0%nat _ eq_refl).
    + exact (H3 1%nat _ eq_refl).
    + exact (H3 2%nat _ eq_refl).
Defined.

End UpdateProperties.

(** ** More on the structural editor *)

Section EditorInvariants.
Import Editor.

Lemma any_call_true {A : Type} (f : A -> option bool) l :
  any_call f l = Some true -> exists x, In x l /\ f x = Some true.
Proof.
  induction l as [|a l IH]; simpl; [discriminate|].
  destruct (f a) as [[|]|] eqn:E; try discriminate.
  - intros _. exists a. auto.
  - intros H. destruct (IH H) as (x & Hx & Hfx). exists x. auto.
Qed.

Lemma includes_In l n : JS.includes l n = true <-> In n l.
Proof.
  unfold JS.includes. rewrite existsb_exists. split.
  - intros (x & Hx & E). apply Z.eqb_eq in E. now subst.
  - intros H. exists n. split; trivial. apply Z.eqb_refl.
Qed.

Lemma true_only_if_reaches allTasks target :
  forall depth t,
    isTaskDependentOn depth allTasks t target = Some true ->
    reaches allTasks t target.
Proof.
  induction depth as [|depth IH]; intros t; [discriminate|].
  rewrite isTaskDependentOn_step.
  destruct (JS.strict_eq (parentTaskId t) target) eqn:Ep.
  - intros _. apply reaches_parent. unfold JS.strict_eq in Ep.
    destruct (parentTaskId t) as [q|]; [|discriminate].
    apply Z.eqb_eq in Ep. now subst.
  - destruct (dependencies t) as [deps|] eqn:Ed.
    + destruct (JS.includes deps target) eqn:Ei.
      * intros _. eapply reaches_dependency; eauto.
        now apply includes_In.
      * match goal with |- context [any_call ?f deps] =>
          destruct (any_call f deps) as [[|]|] eqn:A
        end; try discriminate.
        -- intros _. apply any_call_true in A.
           destruct A as (d & Hd & Hfd).
           destruct (find_by_id allTasks (Some d)) as [depTask|] eqn:F;
             [|discriminate].
           eapply reaches_through; eauto.
        -- intros H. apply any_call_true in H.
           destruct H as (st & Hst & Hf).
           destruct (subtasks t) as [subs|] eqn:Es; [|destruct Hst].
           eapply reaches_subtask; eauto.
    + simpl. intros H. apply any_call_true in H.
      destruct H as (st & Hst & Hf).
      destruct (subtasks t) as [subs|] eqn:Es; [|destruct Hst].
      eapply reaches_subtask; eauto.
Qed.

(** X10: when [isTaskDependentOn] gives an answer it is the right one: it
    answers [true] exactly when the target can be reached from the task
    through a [parentTaskId], the dependencies or the subtasks, whatever
    the depth of the stack. *)
Theorem isTaskDependentOn_answer :
  forall depth allTasks t target b,
    isTaskDependentOn depth allTasks t target = Some b ->
    (b = true <-> reaches allTasks t target).
Proof.
  intros depth allTasks t target b H. split.
  - intros ->. eapply true_only_if_reaches; eauto.
  - intros R. destruct b; trivial.
    exfalso. eapply reaches_never_false; eauto.
Qed.

Lemma isTaskDependentOn_answer_witness :
  reaches Samples.project (nth 2 Samples.project Samples.no_deps_field) 1.
Proof.
  apply (isTaskDependentOn_answer
           3%nat Samples.project
           (nth 2 Samples.project Samples.no_deps_field) 1 true).
  - reflexivity.
  - reflexivity.
Defined.

Lemma self_dependency_overflows allTasks P p rest target :
  find_by_id allTasks (Some p) = Some P ->
  dependencies P = Some (p :: rest) ->
  parentTaskId P <> Some target ->
  ~ In target (p :: rest) ->
  forall depth, isTaskDependentOn depth allTasks P target = None.
Proof.
  intros Hf Hd Hp Hn. induction depth as [|depth IH]; trivial.
  rewrite isTaskDependentOn_step.
  assert (Ep : JS.strict_eq (parentTaskId P) target = false).
  { unfold JS.strict_eq. destruct (parentTaskId P) as [q|]; trivial.
    apply Z.eqb_neq. congruence. }
  rewrite Ep, Hd.
  assert (Ei : JS.includes (p :: rest) target = false).
  { destruct (JS.includes (p :: rest) target) eqn:E; trivial.
    apply includes_In in E. contradiction. }
  rewrite Ei. simpl. simpl in Hf. rewrite Hf, IH. reflexivity.
Qed.

Lemma id_init t : id (init_subtasks t) = id t.
Proof. unfold init_subtasks. now destruct (subtasks t). Qed.

Lemma convert_run depth tasks parentId existingTaskId newSubtaskData
      p e P E :
  parseInt_arg parentId = Some p ->
  parseInt_arg existingTaskId = Some e ->
  find_by_id tasks (Some p) = Some P ->
  find_by_id tasks (Some e) = Some E ->
  e <> p ->
  JS.truthy_num (parentTaskId E) = false ->
  addSubtask_mem depth tasks parentId (Some existingTaskId) newSubtaskData
  = let tasks1 := update_first (has_id p) init_subtasks tasks in
    match isTaskDependentOn depth tasks P e with
    | None => (tasks1, inl StackOverflow)
    | Some true => (tasks1, inl (CircularConversion p e))
    | Some false =>
        let newSubtask :=
          set_parentTaskId
            (set_id E (highestSubtaskId (subtask_list P) + 1)) p in
        (remove_first (has_id e)
           (update_first (has_id p) (push_subtask newSubtask) tasks1),
         inr newSubtask)
    end.
Proof.
  intros Hp He HP HE Hne Hfalsy.
  unfold addSubtask_mem. rewrite Hp, He. simpl. simpl in HP, HE.
  rewrite HP. change (fun t => id t =? e) with (has_id e) in *.
  rewrite find_update_first by apply id_init.
  assert (Ene : (e =? p) = false) by now apply Z.eqb_neq.
  rewrite Ene, HE, Hfalsy.
  rewrite isTaskDependentOn_after_init, isTaskDependentOn_init.
  now rewrite subtask_list_init.
Qed.

(** X11: the walk of [isTaskDependentOn] does not remember where it has
    been: from a task whose first dependency is the task itself, and that
    does not name the target directly, it never answers, whatever the depth
    of the stack, and a conversion under such a parent ends with the stack
    overflow instead of a verdict. *)
Theorem self_dependent_parent_overflows :
  forall depth tasks parentId existingTaskId newSubtaskData p e P E rest,
    parseInt_arg parentId = Some p ->
    parseInt_arg existingTaskId = Some e ->
    find_by_id tasks (Some p) = Some P ->
    find_by_id tasks (Some e) = Some E ->
    JS.truthy_num (parentTaskId E) = false ->
    dependencies P = Some (p :: rest) ->
    parentTaskId P <> Some e ->
    ~ In e (p :: rest) ->
    isTaskDependentOn depth tasks P e = None /\
    addSubtask depth (Some tasks) parentId (Some existingTaskId)
               newSubtaskData
      = (Some tasks, inl StackOverflow).
Proof.
  intros depth tasks parentId existingTaskId newSubtaskData p e P E rest
         Hp He HP HE Hfalsy Hd Hpar Hn.
  pose proof (self_dependency_overflows tasks P p rest e HP Hd Hpar Hn depth)
    as Hnone.
  split; trivial. unfold addSubtask.
  rewrite (convert_run depth tasks parentId existingTaskId newSubtaskData
             p e P E Hp He HP HE); trivial.
  - simpl. now rewrite Hnone.
  - intros ->. apply Hn. now left.
Qed.

Lemma self_dependent_parent_overflows_witness :
  addSubtask 1000 (Some [Samples.plain 1 "pending" None (Some [1]);
                         Samples.plain 2 "pending" None (Some [])])
             (IdNum 1) (Some (IdNum 2)) None
    = (Some [Samples.plain 1 "pending" None (Some [1]);
             Samples.plain 2 "pending" None (Some [])],
       inl StackOverflow).
Proof.
  apply (self_dependent_parent_overflows
           1000%nat
           [Samples.plain 1 "pending" None (Some [1]);
            Samples.plain 2 "pending" None (Some [])]
           (IdNum 1) (IdNum 2) None 1 2
           (Samples.plain 1 "pending" None (Some [1]))
           (Samples.plain 2 "pending" None (Some [])) []
           eq_refl eq_refl eq_refl eq_refl eq_refl eq_refl).
  - discriminate.
  - intros [H|[]]. discriminate.
Defined.

Lemma remove_first_length (q : task -> bool) l x :
  find q l = Some x ->
  (List.length (remove_first q l) + 1 = List.length l)%nat.
Proof.
  induction l as [|a l IH]; simpl; [discriminate|].
  destruct (q a); intros H; simpl; [lia|].
  specialize (IH H). lia.
Qed.

Lemma find_remove_first n m l :
  n <> m ->
  find (has_id n) (remove_first (has_id m) l) = find (has_id n) l.
Proof.
  intros Hne. induction l as [|a l IH]; simpl; trivial.
  destruct (has_id m a) eqn:Em; simpl.
  - unfold has_id in *. apply Z.eqb_eq in Em.
    destruct (Z.eqb_spec (id a) n); [lia | reflexivity].
  - now rewrite IH.
Qed.

Lemma In_update_first_other (q : task -> bool) f l t :
  In t l -> q t = false -> In t (update_first q f l).
Proof.
  induction l as [|a l IH]; simpl; trivial.
  intros [<-|Ht] Hq.
  - rewrite Hq. now left.
  - destruct (q a); right; auto.
Qed.

Lemma In_remove_first_other (q : task -> bool) l t :
  In t l -> q t = false -> In t (remove_first q l).
Proof.
  induction l as [|a l IH]; simpl; trivial.
  intros [<-|Ht] Hq.
  - rewrite Hq. now left.
  - destruct (q a); [trivial | right; auto].
Qed.

Lemma find_removed_unique e l :
  NoDup (map id l) -> find (has_id e) (remove_first (has_id e) l) = None.
Proof.
  induction l as [|a l IH]; simpl; trivial. intros H.
  inversion H as [|? ? Hn Hl]; subst.
  destruct (has_id e a) eqn:E; simpl.
  - unfold has_id in E. apply Z.eqb_eq in E.
    destruct (find (has_id e) l) as [x|] eqn:F; trivial.
    apply find_some in F. destruct F as [Hin Hx].
    unfold has_id in Hx. apply Z.eqb_eq in Hx.
    exfalso. apply Hn. rewrite E, <- Hx. now apply in_map.
  - rewrite E. auto.
Qed.

(** X12: a conversion that passes the checks moves the task: it leaves the
    list of tasks, which is one shorter, and becomes the last subtask of
    the parent, with the id that follows the greatest subtask id, the id of
    the parent as [parentTaskId] and every other field as it was.  Every
    other task is left as it is, dependencies on the old id included; with
    unique ids the old id names no task any more. *)
Theorem addSubtask_moves_the_task :
  forall depth tasks parentId existingTaskId newSubtaskData p e P E,
    parseInt_arg parentId = Some p ->
    parseInt_arg existingTaskId = Some e ->
    find_by_id tasks (Some p) = Some P ->
    find_by_id tasks (Some e) = Some E ->
    JS.truthy_num (parentTaskId E) = false ->
    e <> p ->
    isTaskDependentOn depth tasks P e = Some false ->
    exists tasks' newSubtask P',
      addSubtask depth (Some tasks) parentId (Some existingTaskId)
                 newSubtaskData
        = (Some tasks', inr newSubtask) /\
      newSubtask = set_parentTaskId (set_id E (id newSubtask)) p /\
      (subtask_list P = [] -> id newSubtask = 1) /\
      (forall m, is_max m (map id (subtask_list P)) ->
                 id newSubtask = m + 1) /\
      (List.length tasks' + 1 = List.length tasks)%nat /\
      find_by_id tasks' (Some p) = Some P' /\
      P' = set_subtasks P (Some (subtask_list P ++ [newSubtask])) /\
      (forall t, In t tasks -> id t <> p -> id t <> e -> In t tasks') /\
      (NoDup (map id tasks) -> find_by_id tasks' (Some e) = None).
Proof.
  intros depth tasks parentId existingTaskId newSubtaskData p e P E
         Hp He HP HE Hfalsy Hne Hwalk.
  unfold addSubtask.
  rewrite (convert_run depth tasks parentId existingTaskId newSubtaskData
             p e P E Hp He HP HE Hne Hfalsy).
  rewrite Hwalk. simpl.
  set (newSubtask :=
         set_parentTaskId
           (set_id E (highestSubtaskId (subtask_list P) + 1)) p).
  simpl in HP, HE.
  change (fun t => id t =? p) with (has_id p) in HP.
  change (fun t => id t =? e) with (has_id e) in HE.
  destruct (find_split (has_id p) init_subtasks tasks P HP)
    as (l1 & l2 & Ht & Hu & Hl1).
  assert (HidP : has_id p P = true) by (apply find_some in HP; tauto).
  set (tasks2 := update_first (has_id p) (push_subtask newSubtask)
                   (update_first (has_id p) init_subtasks tasks)).
  assert (H2 : tasks2 =
               l1 ++ set_subtasks P (Some (subtask_list P ++ [newSubtask]))
                  :: l2).
  { unfold tasks2. rewrite Hu.
    rewrite update_first_middle; [|trivial | now rewrite has_id_init].
    unfold push_subtask. now rewrite subtask_list_init, set_subtasks_init. }
  assert (Hids : map id tasks2 = map id tasks).
  { rewrite H2, Ht, !map_app. reflexivity. }
  assert (HE2 : find (has_id e) tasks2 = Some E).
  { unfold tasks2.
    rewrite find_update_first
      by (intros x; unfold push_subtask; reflexivity).
    rewrite find_update_first by apply id_init.
    apply Z.eqb_neq in Hne. now rewrite Hne. }
  exists (remove_first (has_id e) tasks2), newSubtask,
    (set_subtasks P (Some (subtask_list P ++ [newSubtask]))).
  destruct (highestSubtaskId_spec (subtask_list P)) as [H0 Hm].
  split; [reflexivity|]. split; [reflexivity|].
  split; [intros E0; simpl; now rewrite H0|].
  split; [intros m Hmax; simpl; now rewrite (Hm m Hmax)|].
  split.
  { rewrite (remove_first_length _ _ _ HE2).
    rewrite <- (length_map id tasks2), Hids. apply length_map. }
  split.
  { simpl. change (fun t => id t =? p) with (has_id p).
    rewrite find_remove_first by congruence.
    rewrite H2. apply find_middle; trivial. }
  split; [reflexivity|]. split.
  - intros t Hin Hp' He'. apply In_remove_first_other.
    + unfold tasks2. apply In_update_first_other.
      * apply In_update_first_other; trivial.
        unfold has_id. now apply Z.eqb_neq.
      * unfold has_id. now apply Z.eqb_neq.
    + unfold has_id. now apply Z.eqb_neq.
  - intros Hnd. simpl. change (fun t => id t =? e) with (has_id e).
    apply find_removed_unique. now rewrite Hids.
Qed.

Lemma addSubtask_moves_the_task_witness :
  exists tasks' newSubtask P',
    addSubtask 11 (Some Samples.project) (IdNum 1) (Some (IdNum 5)) None
      = (Some tasks', inr newSubtask) /\
    id newSubtask = 1 /\
    find_by_id tasks' (Some 1) = Some P' /\
    find_by_id tasks' (Some 5) = None.
Proof.
  destruct (addSubtask_moves_the_task
              11%nat Samples.project (IdNum 1) (IdNum 5) None 1 5
              (nth 0 Samples.project Samples.no_deps_field)
              (nth 2 Samples.project Samples.no_deps_field)
              eq_refl eq_refl eq_refl eq_refl eq_refl)
    as (tasks' & st & P' & H1 & _ & H3 & _ & _ & H6 & _ & _ & H9).
  - discriminate.
  - reflexivity.
  - exists tasks', st, P'. repeat split; trivial.
    + now apply H3.
    + apply H9. simpl.
      repeat constructor; simpl; intuition discriminate.
Defined.

(** X13: [removeSubtask] makes its checks before it changes anything: when
    it fails, the tasks in memory are as they were read and nothing is
    written, and the error is one of the four the code throws: a malformed
    id, a parent that is not found or has no subtasks, a subtask that is
    not found. *)
Theorem removeSubtask_failure_changes_nothing :
  forall tasks subtaskId convertToTask e,
    snd (removeSubtask_mem tasks subtaskId convertToTask) = inl e ->
    fst (removeSubtask_mem tasks subtaskId convertToTask) = tasks /\
    removeSubtask (Some tasks) subtaskId convertToTask
      = (Some tasks, inl e) /\
    (e = InvalidSubtaskIdFormat subtaskId \/
     (exists p, e = ParentNotFound p) \/
     (exists p, e = ParentHasNoSubtasks p) \/
     (exists p s, e = SubtaskNotFound p s)).
Proof.
  intros tasks subtaskId convertToTask e.
  unfold removeSubtask. unfold removeSubtask_mem, find_by_id.
  destruct (JS.includes_char "." subtaskId); cbv beta iota zeta.
  2:{ intros [= <-]. repeat split; auto. }
  destruct (JS.parseInt (nth 0 (JS.split "." subtaskId) "")) as [p|];
    cbv beta iota zeta.
  2:{ intros [= <-]. repeat split. right; left; eauto. }
  destruct (find (fun t => id t =? p) tasks) as [P|] eqn:HP.
  2:{ intros [= <-]. repeat split. right; left; eauto. }
  destruct (subtasks P) as [[|x subs]|] eqn:Hs.
  1,3: intros [= <-]; repeat split; right; right; left; eauto.
  set (subs0 := x :: subs).
  destruct (JS.parseInt (nth 1 (JS.split "." subtaskId) "")) as [s|];
    cbv beta iota zeta.
  2:{ intros [= <-]. repeat split. right; right; right; eauto. }
  destruct (find (fun t => id t =? s) subs0) as [S|] eqn:HS.
  2:{ intros [= <-]. repeat split. right; right; right; eauto. }
  destruct convertToTask; [|discriminate].
  match goal with |- context [JS.Math_max ?l] =>
    destruct (JS.Math_max l) eqn:M
  end; [discriminate|].
  exfalso. revert M.
  match goal with |- context [update_first ?q ?f tasks] =>
    destruct (find_split q f tasks P HP) as (l1 & l2 & _ & -> & _)
  end.
  rewrite map_app. now destruct l1.
Qed.

Lemma removeSubtask_failure_changes_nothing_witness :
  removeSubtask (Some Samples.project) "2.4" true
    = (Some Samples.project, inl (SubtaskNotFound 2 (Some 4))).
Proof.
  apply (removeSubtask_failure_changes_nothing
           Samples.project "2.4" true (SubtaskNotFound 2 (Some 4))).
  reflexivity.
Defined.

Lemma find_app_last (q : task -> bool) l x :
  (forall y, In y l -> q y = false) -> q x = true ->
  find q (l ++ [x]) = Some x /\ remove_first q (l ++ [x]) = l.
Proof.
  intros Hl Hx. induction l as [|a l IH]; simpl.
  - now rewrite Hx.
  - rewrite (Hl a) by now left.
    destruct IH as [I1 I2]; [intros y Hy; apply Hl; now right|].
    split; [trivial | now f_equal].
Qed.

(** X14: adding a subtask and removing it again gives the document back:
    the subtask that [addSubtask] made is the one its address names, and
    [removeSubtask] takes out that subtask only.  The one difference is
    that the parent is left without a [subtasks] field when it had an
    empty one. *)
Theorem addSubtask_then_removeSubtask :
  forall depth tasks parentId p P d subtaskId tasks1 newSubtask,
    parseInt_arg parentId = Some p ->
    find_by_id tasks (Some p) = Some P ->
    addSubtask_mem depth tasks parentId None (Some d)
      = (tasks1, inr newSubtask) ->
    JS.includes_char "." subtaskId = true ->
    JS.parseInt (nth 0 (JS.split "." subtaskId) "") = Some p ->
    JS.parseInt (nth 1 (JS.split "." subtaskId) "")
      = Some (id newSubtask) ->
    removeSubtask_mem tasks1 subtaskId false
      = (update_first (has_id p)
           (fun t => set_subtasks t
                       match subtask_list P with
                       | [] => None
                       | _ => Some (subtask_list P)
                       end) tasks,
         inr None) /\
    (subtasks P <> Some [] ->
     removeSubtask_mem tasks1 subtaskId false = (tasks, inr None)).
Proof.
  intros depth tasks parentId p P d subtaskId tasks1 newSubtask
         Hp HP Hadd Hdot Hp' Hs'.
  unfold addSubtask_mem in Hadd. rewrite Hp in Hadd. simpl in Hadd, HP.
  rewrite HP in Hadd.
  change (fun t => id t =? p) with (has_id p) in HP.
  destruct (find_split (has_id p) init_subtasks tasks P HP)
    as (l1 & l2 & Ht & Hu & Hl1).
  assert (HidP : has_id p P = true) by (apply find_some in HP; tauto).
  rewrite Hu in Hadd.
  rewrite update_first_middle in Hadd;
    [|trivial | now rewrite has_id_init].
  unfold push_subtask in Hadd.
  rewrite !subtask_list_init, set_subtasks_init in Hadd.
  injection Hadd as H1 H2. rewrite H2 in H1. subst tasks1.
  set (subs := subtask_list P) in *.
  assert (Hnew : id newSubtask = highestSubtaskId subs + 1)
    by (now rewrite <- H2).
  assert (Hfresh : forall y, In y subs -> has_id (id newSubtask) y = false).
  { intros y Hy. unfold has_id. apply Z.eqb_neq. rewrite Hnew.
    unfold highestSubtaskId.
    destruct (JS.Math_max (map id subs)) as [m|] eqn:M.
    - apply Math_max_is_max in M. destruct M as [_ M].
      specialize (M (id y) (in_map id subs y Hy)). lia.
    - destruct subs; [destruct Hy | discriminate]. }
  destruct (find_app_last (has_id (id newSubtask)) subs newSubtask Hfresh)
    as [F R]; [unfold has_id; apply Z.eqb_refl|].
  assert (Hfirst :
    removeSubtask_mem
      (l1 ++ set_subtasks P (Some (subs ++ [newSubtask])) :: l2)
      subtaskId false
    = (l1 ++ set_subtasks P match subs with
                            | [] => None
                            | _ => Some subs
                            end :: l2, inr None)).
  { unfold removeSubtask_mem. rewrite Hdot, Hp', Hs'. simpl.
    change (fun t => id t =? p) with (has_id p).
    rewrite (find_middle (has_id p) l1 _ l2 Hl1) by exact HidP.
    simpl. destruct (subs ++ [newSubtask]) as [|z zs] eqn:Z.
    { destruct subs; discriminate. }
    change (fun t => id t =? id newSubtask)
      with (has_id (id newSubtask)).
    rewrite F, R.
    rewrite update_first_middle; trivial. }
  split.
  - rewrite Hfirst. f_equal. rewrite Ht.
    rewrite update_first_middle; trivial.
  - intros Hne. rewrite Hfirst. f_equal. rewrite Ht. f_equal. f_equal.
    unfold subs, subtask_list in *.
    destruct P. simpl in *. destruct subtasks0 as [[|x xs]|]; trivial.
    congruence.
Qed.

Lemma addSubtask_then_removeSubtask_witness :
  removeSubtask_mem
    (fst (addSubtask_mem 0 Samples.project (IdNum 2) None
            (Some (mkPayload (Some "x") None None None None))))
    "2.2" false
  = (Samples.project, inr None).
Proof.
  apply (addSubtask_then_removeSubtask
           0%nat Samples.project (IdNum 2) 2
           (nth 1 Samples.project Samples.no_deps_field)
           (mkPayload (Some "x") None None None None) "2.2" _ _
           eq_refl eq_refl eq_refl eq_refl eq_refl eq_refl).
  discriminate.
Defined.

End EditorInvariants.

(** ** More on the ingestion of generated records *)

Section IngestInvariants.
Import Ingest.

Lemma validate_id expectedId record r :
  validate expectedId record = Some r ->
  (no_own_id record -> s_id r = expectedId) /\
  (forall k, get record "id" = Some (JNum k) -> s_id r = k).
Proof.
  unfold validate, no_own_id.
  destruct (is_object record); simpl; [|discriminate].
  intros [= <-]. simpl. split.
  - now destruct (get record "id") as [[]|].
  - now intros k ->.
Qed.

Lemma validated_ids items : forall startId,
  (forall record, In record items -> no_own_id record) ->
  (forall r, In r (validatedSubtasks startId items) -> startId <= s_id r) /\
  NoDup (map s_id (validatedSubtasks startId items)).
Proof.
  unfold validatedSubtasks.
  induction items as [|x items IH]; intros startId H; simpl.
  - split; [intros r [] | constructor].
  - destruct (IH (startId + 1)) as [I1 I2];
      [intros record Hr; apply H; now right|].
    destruct (validate startId x) as [r0|] eqn:V; simpl.
    + destruct (validate_id _ _ _ V) as [Hid _].
      specialize (Hid (H x (or_introl eq_refl))). split.
      * intros r [<-|Hr]; [lia|]. specialize (I1 r Hr). lia.
      * constructor; trivial. intros Hin. apply in_map_iff in Hin.
        destruct Hin as (r & Hr & Hin). specialize (I1 r Hin). lia.
    + split; trivial. intros r Hr. specialize (I1 r Hr). lia.
Qed.

(** X15: the ids that an expansion gives are new: when the generated
    records carry no numeric id of their own, the subtasks parsed with the
    next subtask id of the task as start have ids that differ from one
    another and are greater than the id of every subtask the task has.  A
    numeric id carried by a record is kept as it is, whatever the start. *)
Theorem expansion_ids_are_new :
  forall t items expectedCount,
    (forall record, In record items -> no_own_id record) ->
    NoDup (map s_id (parseSubtasksFromText (Some (JArr items))
                       (Expand.nextSubtaskId t) expectedCount)) /\
    (forall r st,
        In r (parseSubtasksFromText (Some (JArr items))
                (Expand.nextSubtaskId t) expectedCount) ->
        In st (Editor.subtask_list t) -> id st < s_id r) /\
    (forall expectedId record r k,
        validate expectedId record = Some r ->
        get record "id" = Some (JNum k) -> s_id r = k).
Proof.
  intros t items expectedCount H.
  rewrite parseSubtasksFromText_array.
  destruct (validated_ids items (Expand.nextSubtaskId t) H) as [I1 I2].
  split; trivial. split.
  - intros r st Hr Hst. specialize (I1 r Hr).
    unfold Expand.nextSubtaskId in I1.
    destruct (JS.Math_max (map id (Editor.subtask_list t))) as [m|] eqn:M.
    + apply Math_max_is_max in M. destruct M as [_ M].
      specialize (M (id st) (in_map id _ st Hst)). lia.
    + destruct (Editor.subtask_list t); [destruct Hst | discriminate].
  - intros expectedId record r k V G.
    now apply (validate_id _ _ _ V).
Qed.

Lemma expansion_ids_are_new_witness :
  NoDup (map s_id (parseSubtasksFromText
                     (Some (JArr [JObj [("title", JStr "a")]; JNull;
                                  JObj [("title", JStr "b")]]))
                     (Expand.nextSubtaskId
                        (nth 1 Samples.project Samples.no_deps_field))
                     2)).
Proof.
  apply (expansion_ids_are_new
           (nth 1 Samples.project Samples.no_deps_field)
           [JObj [("title", JStr "a")]; JNull;
            JObj [("title", JStr "b")]] 2).
  intros record [<-|[<-|[<-|[]]]]; exact I.
Defined.

Lemma lookup_last k k' v fields :
  lookup k (fields ++ [(k', v)]) =
  if String.eqb k' k then Some v else lookup k fields.
Proof.
  induction fields as [|[k0 w] l IH]; simpl.
  - reflexivity.
  - rewrite IH. destruct (String.eqb k' k); trivial.
Qed.

Lemma lookup_without k k0 fields :
  k <> k0 ->
  lookup k (filter (fun kv => negb (String.eqb (fst kv) k0)) fields)
  = lookup k fields.
Proof.
  intros Hne. induction fields as [|[k1 w] l IH]; simpl; trivial.
  destruct (String.eqb_spec k1 k0) as [E|E]; simpl.
  - rewrite IH. destruct (lookup k l); trivial.
    destruct (String.eqb_spec k1 k); [congruence | reflexivity].
  - now rewrite IH.
Qed.

(** X16: [processApiResponse] accepts exactly the answers whose [tasks] is
    an array, and hands on their task records untouched: the document it
    returns has the same tasks, and has the default metadata when the
    answer had none. *)
Theorem processApiResponse_keeps_tasks :
  forall fields metadata,
    (processApiResponse (JObj fields) metadata = None <->
     forall l, get (JObj fields) "tasks" <> Some (JArr l)) /\
    (forall doc,
        processApiResponse (JObj fields) metadata = Some doc ->
        tasks_of doc = tasks_of (JObj fields) /\
        (truthy (get (JObj fields) "metadata") = true ->
         doc = JObj fields) /\
        (truthy (get (JObj fields) "metadata") = false ->
         get doc "metadata" = Some metadata)).
Proof.
  intros fields metadata. unfold processApiResponse. split.
  - destruct (get (JObj fields) "tasks") as [[]|];
      try (split; [intros _ l; discriminate | reflexivity]).
    destruct (truthy (get (JObj fields) "metadata"));
      (split; [discriminate | intros H; now elim (H items)]).
  - intros doc.
    destruct (get (JObj fields) "tasks") as [[]|] eqn:G; try discriminate.
    destruct (truthy (get (JObj fields) "metadata")) eqn:M;
      intros [= <-].
    + repeat split; trivial. discriminate.
    + split; [|split; [discriminate|]].
      * unfold tasks_of, set_field. simpl.
        rewrite lookup_last. simpl.
        rewrite lookup_without by discriminate. reflexivity.
      * intros _. unfold set_field. simpl.
        rewrite lookup_last. now rewrite String.eqb_refl.
Qed.

Lemma processApiResponse_keeps_tasks_witness :
  exists doc,
    processApiResponse Samples.generated_tasks (JStr "m") = Some doc /\
    tasks_of doc = tasks_of Samples.generated_tasks /\
    get doc "metadata" = Some (JStr "m").
Proof.
  eexists. split; [reflexivity|].
  destruct (proj2 (processApiResponse_keeps_tasks
                     [("tasks",
                       JArr [JObj [("id", JNum 1);
                                   ("dependencies", JArr [JStr "x"])]])]
                     (JStr "m")) _ eq_refl) as (H1 & _ & H3).
  split; [exact H1 | now apply H3].
Defined.

End IngestInvariants.

(** ** [expandAllTasks] and the bounds of the complexity prompt *)

Section ExpandProperties.
Import Expand.






(** X18: the range of subtasks that the complexity prompt asks for lies
    between 2 and 10, and is not empty exactly when the configured default
    is a number from 0 to 11 or is not a number; a default of 0 or no
    number counts as 3, which gives 2 to 5. *)
Theorem complexity_prompt_bounds :
  forall configured,
    2 <= minSubtasks configured /\ maxSubtasks configured <= 10 /\
    (minSubtasks configured <= maxSubtasks configured <->
     match configured with
     | Some n => 0 <= n <= 11
     | None => True
     end) /\
    (configured = None \/ configured = Some 0 ->
     minSubtasks configured = 2 /\ maxSubtasks configured = 5).
Proof.
  intros configured. unfold minSubtasks, maxSubtasks, defaultSubtasks.
  destruct configured as [n|].
  - destruct (Z.eqb_spec n 0) as [->|Hn].
    + repeat split; lia.
    + split; [lia|]. split; [lia|]. split; [lia|].
      intros [H|H]; [discriminate | injection H as ->; lia].
  - repeat split; lia.
Qed.

Lemma complexity_prompt_bounds_witness :
  minSubtasks (Some 0) = 2 /\ maxSubtasks (Some 0) = 5.
Proof.
  apply (complexity_prompt_bounds (Some 0)). now right.
Defined.

End ExpandProperties.
